(** * Visualizing the stock market structure: the notebook's own logic

    A shallow embedding of the code cells of
    [_posts/scikit/stock-market-structure/Visualizing-the-stock-market.ipynb]
    (a Python 2.7 notebook) that are not delegated to scikit-learn:

    - [matplotlib_to_plotly], the colour-scale helper;
    - the thresholded partial-correlation graph and its edge traces;
    - the label-placement loop that builds [annotations];
    - the node trace and the figure;
    - the standardization [X /= X.std(axis=0)];
    - the unpacking of the instrument table, the daily variations and the
      printed clusters.

    Numbers.  The notebook computes on IEEE binary64 values.  The graph,
    the figure and the label loop as a whole only add, subtract, multiply
    by constants and compare numbers that are given to them, so they are
    embedded over exact rationals [Q]: rounding is abstracted away, and
    the properties stated on them do not depend on it.  Where the result
    is decided by rounding or by the IEEE special values, the code is
    embedded over the binary64 instance of the standard library's
    [spec_float], which computes bit for bit: the colour-scale helper
    (its positions [k*h]), the standardization (numpy's pairwise sums and
    the division by a zero), and, a second time, the selection made by the
    label loop (module [Labels64]).

    Part I holds the definitions, Parts II and III the properties. *)

From Stdlib Require Import ZArith QArith Qabs Qminmax Lia.
From Stdlib Require Import Lqa.
From Stdlib Require Import Floats.SpecFloat.
From stdpp Require Import base list gmap strings pretty.

Set Warnings "-register-all".

(* ===================================================================== *)
(** * Part I: the embedding                                               *)
(* ===================================================================== *)

(** ** Python values, exceptions and a small error monad *)

Module Py.

(** The exceptions the embedded cells can raise. *)
Inductive exn : Set :=
| ZeroDivisionError
| IndexError
| ValueError.

(** A computation either returns or raises. *)
Inductive result (A : Type) : Type :=
| Ok (a : A)
| Raise (e : exn).
Arguments Ok {A} a.
Arguments Raise {A} e.

#[export] Instance result_ret : MRet result := fun _ a => Ok a.
#[export] Instance result_bind : MBind result := fun _ _ f m =>
  match m with
  | Ok a => f a
  | Raise e => Raise e
  end.
#[export] Instance result_fmap : FMap result := fun _ _ f m =>
  match m with
  | Ok a => Ok (f a)
  | Raise e => Raise e
  end.

Definition returns {A} (m : result A) : Prop := ∃ a, m = Ok a.
Definition raises {A} (m : result A) : Prop := ∃ e, m = Raise e.

(** The objects stored in plotly dictionaries and in the loops' local
    variables: floats, strings, booleans and tuples. *)
Inductive value : Type :=
| PyFloat (q : Q)
| PyStr (s : string)
| PyBool (b : bool)
| PyTuple (items : list value).

(** [a < b] on floats, as a boolean. *)
Definition Qltb (a b : Q) : bool := negb (Qle_bool b a).

(** [range(n)]: empty when [n <= 0]. *)
Definition range (n : Z) : list Z := Z.of_nat <$> seq 0 (Z.to_nat n).

(** [enumerate(l)]. *)
Definition enumerate {A} (l : list A) : list (nat * A) := imap pair l.

(** [l[i]] on a sequence, for a non-negative index. *)
Definition getitem {A} (l : list A) (i : nat) : result A :=
  match l !! i with
  | Some a => Ok a
  | None => Raise IndexError
  end.

(** [l[i] = v] on an array, for a non-negative index. *)
Definition setitem {A} (l : list A) (i : nat) (v : A) : result (list A) :=
  if decide (i < length l) then Ok (<[i:=v]> l) else Raise IndexError.

(** [str] of a 3-tuple of integers: ["(r, g, b)"]. *)
Definition str_tuple3 (t : Z * Z * Z) : string :=
  let '(r, g, b) := t in
  "(" +:+ pretty r +:+ ", " +:+ pretty g +:+ ", " +:+ pretty b +:+ ")".

End Py.
Import Py.

(** ** IEEE 754 binary64 *)

Module Binary64.

(** A numpy [float64] and a Python [float]: the standard library's
    [spec_float] with the operations at precision 53, rounding to nearest
    even. *)
Abbreviation float64 := spec_float (only parsing).
Definition prec : Z := 53.
Definition emax : Z := 1024.

Definition fadd : float64 → float64 → float64 := SFadd prec emax.
Definition fsub : float64 → float64 → float64 := SFsub prec emax.
Definition fmul : float64 → float64 → float64 := SFmul prec emax.
Definition fdiv : float64 → float64 → float64 := SFdiv prec emax.
Definition fsqrt : float64 → float64 := SFsqrt prec emax.
Definition fabs : float64 → float64 := SFabs.

(** [a < b] and [a <= b]; both are false as soon as one side is a NaN. *)
Definition flt : float64 → float64 → bool := SFltb.
Definition fle : float64 → float64 → bool := SFleb.

(** [isnan]. *)
Definition is_nan (v : float64) : bool :=
  match v with
  | S754_nan => true
  | _ => false
  end.

(** The float of an integer. *)
Definition of_Z (z : Z) : float64 := binary_normalize prec emax z 0 false.

(** The integer part of a float, towards zero; an infinity and a NaN have
    none. *)
Definition ftrunc (v : float64) : option Z :=
  match v with
  | S754_zero _ => Some 0%Z
  | S754_finite s m e => Some (cond_Zopp s (Z.shiftl (Z.pos m) e))
  | S754_infinity _ | S754_nan => None
  end.

End Binary64.
Import Binary64.

(** ** The colour-scale helper, on binary64 *)

Module Colorscale.

(** A matplotlib colour map sends a scalar to an RGBA tuple of floats. *)
Abbreviation rgba := (float64 * float64 * float64 * float64)%type
  (only parsing).
Definition colormap : Type := float64 → rgba.

(** A colour stop [[position, 'rgb(r, g, b)']]. *)
Abbreviation stop := (float64 * string)%type (only parsing).

(** [a / n] for a Python float [a] and an int [n].  Python converts [n] to
    a float and refuses a divisor equal to [0.0]; a non-zero int never
    converts to [0.0], so the test is made on the int.  (An int too large
    for a float, beyond [1.8e308], is an OverflowError and is left out.) *)
Definition truediv (a : float64) (n : Z) : result float64 :=
  if decide (n = 0%Z) then Raise ZeroDivisionError else Ok (fdiv a (of_Z n)).

(** [np.uint8] of a float, the C cast: the fraction is dropped.  Outside
    of [0 .. 255] the cast is undefined in C; the model takes what
    x86-64 does (a conversion to a 32-bit integer, of which the low byte
    is kept, and [0] when the integer part does not fit).  A matplotlib
    colour map has its components in [[0, 1]], so the products by 255
    that the helper casts stay within [0 .. 255]. *)
Definition np_uint8 (v : float64) : Z :=
  match ftrunc v with
  | Some z =>
      if decide (- 2 ^ 31 ≤ z < 2 ^ 31)%Z then (z mod 256)%Z else 0%Z
  | None => 0%Z
  end.

(** [map(np.uint8, np.array(cmap(t)[:3])*255)], in Python 2 the list
    [[C[0], C[1], C[2]]]. *)
Definition channels (cmap : colormap) (t : float64) : Z * Z * Z :=
  let '(r, g, b, _) := cmap t in
  (np_uint8 (fmul r (of_Z 255)), np_uint8 (fmul g (of_Z 255)),
   np_uint8 (fmul b (of_Z 255))).

(** One turn of the [for k in range(pl_entries)] loop; [k*h] is the
    product of the float of [k] by [h]. *)
Definition append_stop (cmap : colormap) (h : float64)
    (pl_colorscale : list stop) (k : Z) : list stop :=
  let C := channels cmap (fmul (of_Z k) h) in
  pl_colorscale ++ [(fmul (of_Z k) h, "rgb" +:+ str_tuple3 C)].

(** [def matplotlib_to_plotly(cmap, pl_entries)], with
    [h = 1.0/(pl_entries-1)]. *)
Definition matplotlib_to_plotly (cmap : colormap) (pl_entries : Z)
    : result (list stop) :=
  h ← truediv (of_Z 1) (pl_entries - 1);
  mret (fold_left (append_stop cmap h) (range pl_entries) []).


(** A grey ramp, used to run the helper. *)
Definition gray : colormap := fun t => (t, t, t, of_Z 1).





(** The largest double below [1.0], printed [0.9999999999999999]. *)
Definition below_one : float64 := S754_finite false 9007199254740991 (-53).

End Colorscale.

(** ** The partial-correlation graph *)

Module Graph.

(** A two-dimensional array, row by row. *)
Abbreviation matrix := (list (list Q)) (only parsing).

(** [m *= d]: broadcasting along rows, column [j] is scaled by [d[j]]. *)
Definition scale_columns (m : matrix) (d : list Q) : matrix :=
  (λ row : list Q, zip_with Qmult row d) <$> m.

(** [m *= d[:, np.newaxis]]: row [i] is scaled by [d[i]]. *)
Definition scale_rows (m : matrix) (d : list Q) : matrix :=
  zip_with (λ (row : list Q) di, (λ v, v * di)%Q <$> row) m d.

(** [partial_correlations] after the two scalings.  The vector
    [d = 1 / np.sqrt(np.diag(precision))] comes from numpy's square root
    and is an input here. *)
Definition partial_correlations (precision : matrix) (d : list Q) : matrix :=
  scale_rows (scale_columns precision d) d.

(** [np.triu(m, k=1)]: entries on and below the diagonal become zero. *)
Definition triu1 (m : matrix) : matrix :=
  imap (λ i (row : list Q), imap (λ j v, if decide (i < j) then v else 0%Q) row) m.

(** The threshold of the notebook. *)
Definition threshold : Q := 0.02%Q.

(** [non_zero = (np.abs(np.triu(partial_correlations, k=1)) > 0.02)]. *)
Definition non_zero (pc : matrix) : list (list bool) :=
  (λ row : list Q, (λ v, Qltb threshold (Qabs v)) <$> row) <$> triu1 pc.

(** The column indices of the true entries of one row of a mask. *)
Definition true_indices (row : list bool) : list nat :=
  (filter (λ p, p.2 = true) (enumerate row)).*1.

(** [np.where(mask)] on a 2-D mask: the row indices and the column indices
    of the true entries, in row-major order. *)
Definition np_where (mask : list (list bool)) : list nat * list nat :=
  let hits := concat (imap (λ i row, pair i <$> true_indices row) mask) in
  (hits.*1, hits.*2).

(** [m[mask]]: the entries selected by a boolean mask, in row-major
    order. *)
Definition np_select (m : matrix) (mask : list (list bool)) : list Q :=
  concat (zip_with (λ row brow,
            (filter (λ p, p.2 = true) (zip row brow)).*1) m mask).

Definition start_idx (pc : matrix) : list nat := (np_where (non_zero pc)).1.
Definition end_idx (pc : matrix) : list nat := (np_where (non_zero pc)).2.

(** [values = np.abs(partial_correlations[non_zero])]. *)
Definition values (pc : matrix) : list Q :=
  Qabs <$> np_select pc (non_zero pc).

(** The embedding, as [embedding.T]: one [(x, y)] point per instrument. *)
Abbreviation points := (list (Q * Q)) (only parsing).

(** [embedding[0]] and [embedding[1]]. *)
Definition row0 (embedding : points) : list Q := embedding.*1.
Definition row1 (embedding : points) : list Q := embedding.*2.

(** A segment [[embedding[:, start], embedding[:, stop]]]. *)
Abbreviation segment := ((Q * Q) * (Q * Q))%type (only parsing).

(** [segments = [[embedding[:, start], embedding[:, stop]]
                 for start, stop in zip(start_idx, end_idx)]]. *)
Definition segments (embedding : points) (pc : matrix)
    : result (list segment) :=
  mapM (λ '(start, stop),
          a ← getitem embedding start;
          b ← getitem embedding stop;
          mret (a, b))
       (zip (start_idx pc) (end_idx pc)).

(** Auxiliary: whether the entry [v] at row [i] and column [j] passes the
    mask, and the entries of a matrix that pass it, each with its row and
    column, in row-major order. *)
Definition is_edge (i j : nat) (v : Q) : bool :=
  Qltb threshold (Qabs (if decide (i < j) then v else 0%Q)).
Definition row_entries (i : nat) (row : list Q) : list (nat * Q) :=
  filter (λ t, is_edge i t.1 t.2 = true) (enumerate row).
Definition entries_from (f : nat → nat) (pc : matrix) : list (nat * nat * Q) :=
  concat (imap (λ i (row : list Q),
                  (λ t, (f i, t.1, t.2)) <$> row_entries (f i) row) pc).
Definition entries (pc : matrix) : list (nat * nat * Q) := entries_from id pc.

End Graph.
Import Graph.

(** ** Plotly objects *)

Module Plotly.

(** [line = dict(color=..., width=...)]. *)
Record Line : Type := {
  line_color : string;
  line_width : Q
}.

(** [marker = dict(size=..., color=..., colorscale=...)]. *)
Record Marker : Type := {
  marker_size : Z;
  marker_color : list Q;
  marker_colorscale : list Colorscale.stop
}.

(** [go.Scatter(...)] with the keyword arguments the notebook passes. *)
Record Scatter : Type := {
  scatter_x : list Q;
  scatter_y : list Q;
  scatter_name : option (list Z);
  scatter_mode : string;
  scatter_hoverinfo : string;
  scatter_marker : option Marker;
  scatter_line : option Line
}.

(** A plotly annotation is a dictionary. *)
Abbreviation dict := (gmap string value) (only parsing).

(** [yaxis = dict(...)] and [xaxis = dict(...)]. *)
Record Axis : Type := {
  axis_zeroline : bool;
  axis_showticklabels : bool;
  axis_range : Q * Q;
  axis_showgrid : bool
}.

(** [go.Layout(...)]. *)
Record Layout : Type := {
  layout_showlegend : bool;
  layout_yaxis : Axis;
  layout_xaxis : Axis;
  layout_annotations : list dict;
  layout_height : Z
}.

(** [go.Figure(data=..., layout=...)]. *)
Record Figure : Type := {
  figure_data : list Scatter;
  figure_layout : Layout
}.

End Plotly.
Import Plotly.

(** ** Edge traces *)

Module Edges.

(** The body of [for i in range(len(segments))]. *)
Definition trace1_data (segs : list segment) (vals : list Q) (i : nat)
    : result Scatter :=
  s ← getitem segs i;
  v ← getitem vals i;
  mret {| scatter_x := [s.1.1; s.2.1];
          scatter_y := [s.1.2; s.2.2];
          scatter_name := None;
          scatter_mode := "lines";
          scatter_hoverinfo := "none";
          scatter_marker := None;
          scatter_line := Some {| line_color := "yellow";
                                  line_width := 15 * v |} |}.

(** The list [trace1] once the loop is over. *)
Definition trace1 (embedding : points) (pc : matrix)
    : result (list Scatter) :=
  segs ← segments embedding pc;
  mapM (trace1_data segs (values pc)) (seq 0 (length segs)).

(** What is drawn for one edge: its two endpoints in the instrument list
    and the width of its line. *)
Definition edges (pc : matrix) : list (nat * nat * Q) :=
  zip (zip (start_idx pc) (end_idx pc)) ((λ v, 15 * v)%Q <$> values pc).

(** A precision matrix on three instruments, its vector [d] (the inverse
    square roots of its diagonal) and an embedding of the instruments. *)
Definition sample_precision : matrix :=
  [[4; 2; 0]; [2; 4; -1]; [0; -1; 4]]%Q.
Definition sample_d : list Q := [0.5; 0.5; 0.5]%Q.
Definition sample_embedding : points := [(0, 0); (0.5, 0.5); (1, 0)]%Q.

End Edges.
Import Edges.

(** ** Label placement *)

Module Labels.

(** The scan of [np.argmin]: the first index of the least value. *)
Fixpoint argmin_from (best : nat) (least : Q) (i : nat) (l : list Q) : nat :=
  match l with
  | [] => best
  | v :: l' =>
      if Qltb v least then argmin_from i v (S i) l'
      else argmin_from best least (S i) l'
  end.

(** [np.argmin(l)]; an empty array is an error. *)
Definition np_argmin (l : list Q) : result nat :=
  match l with
  | [] => Raise ValueError
  | v :: l' => Ok (argmin_from 0 v 1 l')
  end.

(** The literal [.002] of the horizontal and of the vertical branch. *)
Definition x_nudge : Q := 0.002%Q.
Definition y_nudge : Q := 0.002%Q.

(** [dx = x - embedding[0]; dx[index] = 1] and the same for [dy]. *)
Definition dx (embedding : points) (index : nat) (x : Q) : result (list Q) :=
  setitem ((λ c, x - c)%Q <$> row0 embedding) index 1%Q.
Definition dy (embedding : points) (index : nat) (y : Q) : result (list Q) :=
  setitem ((λ c, y - c)%Q <$> row1 embedding) index 1%Q.

(** The index [np.argmin(np.abs(dy))], which selects [this_dx], and the
    index [np.argmin(np.abs(dx))], which selects [this_dy]. *)
Definition dx_choice (embedding : points) (index : nat) (y : Q)
    : result nat :=
  dy ← dy embedding index y; np_argmin (Qabs <$> dy).
Definition dy_choice (embedding : points) (index : nat) (x : Q)
    : result nat :=
  dx ← dx embedding index x; np_argmin (Qabs <$> dx).

(** [this_dx = dx[np.argmin(np.abs(dy))]]. *)
Definition this_dx (embedding : points) (index : nat) (x y : Q) : result Q :=
  dx ← dx embedding index x;
  i ← dx_choice embedding index y;
  getitem dx i.

(** [this_dy = dy[np.argmin(np.abs(dx))]]. *)
Definition this_dy (embedding : points) (index : nat) (x y : Q) : result Q :=
  dy ← dy embedding index y;
  j ← dy_choice embedding index x;
  getitem dy j.

(** The two [if] statements. *)
Definition horizontal (this_dx x : Q) : value * Q :=
  if Qltb 0 this_dx then (PyStr "left", x + x_nudge)%Q
  else (PyStr "right", x - x_nudge)%Q.
Definition vertical (this_dy y : Q) : value * Q :=
  if Qltb 0 this_dy then (PyStr "bottom", y + y_nudge)%Q
  else (PyTuple [PyStr "top"], y - y_nudge)%Q.

(** The local variables at the end of one turn of the loop. *)
Record placement : Type := {
  horizontalalignment : value;
  verticalalignment : value;
  placed_x : Q;
  placed_y : Q;
  annot : dict
}.

(** One turn of the loop, for the instrument at [index], called [name],
    with cluster [label], at [(x, y)]. *)
Definition place (embedding : points) (index : nat) (name : string)
    (label : Z) (x y : Q) : result placement :=
  this_dx ← this_dx embedding index x y;
  this_dy ← this_dy embedding index x y;
  let '(horizontalalignment, x) := horizontal this_dx x in
  let '(verticalalignment, y) := vertical this_dy y in
  mret {| horizontalalignment := horizontalalignment;
          verticalalignment := verticalalignment;
          placed_x := x;
          placed_y := y;
          annot := {[ "x" := PyFloat x; "y" := PyFloat y;
                      "text" := PyStr name; "showarrow" := PyBool false ]} |}.

(** The turns of
    [for index, (name, label, (x, y)) in
       enumerate(zip(names, labels, embedding.T))]. *)
Definition placements (names : list string) (labels : list Z)
    (embedding : points) : result (list placement) :=
  mapM (λ '(index, (name, label, (x, y))),
          place embedding index name label x y)
       (enumerate (zip (zip names labels) embedding)).

(** The list [annotations] once the loop is over. *)
Definition annotations (names : list string) (labels : list Z)
    (embedding : points) : result (list dict) :=
  ps ← placements names labels embedding;
  mret (annot <$> (ps : list placement)).

(** The sign of a float: [-1], [0] or [1]. *)
Definition Qsign (q : Q) : Z := Z.sgn (Qnum q).

(** Two points more than one unit apart on both axes, and two points half
    a unit apart. *)
Definition far_apart : points := [(0, 0); (5, 5)]%Q.
Definition close_pair : points := [(0, 0); (0.5, 0.5)]%Q.

(** The local variables after the first turn of the loop on [close_pair],
    for an instrument called ["A"]. *)
Definition close_pair_first : placement :=
  {| horizontalalignment := PyStr "right";
     verticalalignment := PyTuple [PyStr "top"];
     placed_x := (0 - 0.002)%Q;
     placed_y := (0 - 0.002)%Q;
     annot := {[ "x" := PyFloat (0 - 0.002)%Q; "y" := PyFloat (0 - 0.002)%Q;
                 "text" := PyStr "A"; "showarrow" := PyBool false ]} |}.

End Labels.
Import Labels.

(** ** The figure *)

Module Render.

(** [trace = go.Scatter(x=embedding[0], y=embedding[1], name=labels, ...)].
    [noise] is the array returned by [np.random.randn(500)] and
    [colorscale] the value of [matplotlib_to_plotly(plt.cm.spectral, 500)]. *)
Definition trace (embedding : points) (labels : list Z) (noise : list Q)
    (colorscale : list Colorscale.stop) : Scatter :=
  {| scatter_x := row0 embedding;
     scatter_y := row1 embedding;
     scatter_name := Some labels;
     scatter_mode := "markers";
     scatter_hoverinfo := "none";
     scatter_marker := Some {| marker_size := 10;
                               marker_color := noise;
                               marker_colorscale := colorscale |};
     scatter_line := None |}.

(** [a.min()], [a.max()] and [a.ptp()]; numpy refuses an empty array. *)
Definition np_min (a : list Q) : result Q :=
  match a with
  | [] => Raise ValueError
  | v :: a' => Ok (fold_left Qmin a' v)
  end.
Definition np_max (a : list Q) : result Q :=
  match a with
  | [] => Raise ValueError
  | v :: a' => Ok (fold_left Qmax a' v)
  end.
Definition np_ptp (a : list Q) : result Q :=
  hi ← np_max a; lo ← np_min a; mret (hi - lo)%Q.

(** [dict(zeroline=False, showticklabels=False,
          range=[a.min() - below * a.ptp(), a.max() + above * a.ptp()],
          showgrid=False)]. *)
Definition axis (below above : Q) (a : list Q) : result Axis :=
  lo ← np_min a;
  span ← np_ptp a;
  hi ← np_max a;
  span' ← np_ptp a;
  mret {| axis_zeroline := false;
          axis_showticklabels := false;
          axis_range := (lo - below * span, hi + above * span')%Q;
          axis_showgrid := false |}.

(** The plotting cell, from the normalized partial correlations on:
    [randn n] stands for [np.random.randn(n)] and [spectral] for
    [plt.cm.spectral]. *)
Definition fig (spectral : Colorscale.colormap) (randn : nat → list Q)
    (names : list string) (labels : list Z) (embedding : points)
    (pc : matrix) : result Figure :=
  let noise := randn 500%nat in
  colorscale ← Colorscale.matplotlib_to_plotly spectral 500;
  let trace := trace embedding labels noise colorscale in
  trace1 ← trace1 embedding pc;
  annotations ← annotations names labels embedding;
  yaxis ← axis 0.03 0.03 (row1 embedding);
  xaxis ← axis 0.15 0.10 (row0 embedding);
  let layout := {| layout_showlegend := false;
                   layout_yaxis := yaxis;
                   layout_xaxis := xaxis;
                   layout_annotations := annotations;
                   layout_height := 900 |} in
  mret {| figure_data := trace1 ++ [trace]; figure_layout := layout |}.

(** The node colours of a figure: the [color] of the marker of its last
    trace. *)
Definition node_colors (f : Figure) : option (list Q) :=
  t ← last (figure_data f); m ← scatter_marker t; Some (marker_color m).

(** Names and cluster labels for the three sample instruments, and a
    stand-in for the random generator. *)
Definition sample_names : list string := ["A"; "B"; "C"].
Definition sample_labels : list Z := [0; 0; 1]%Z.
Definition flat_noise (n : nat) : list Q := repeat 0.25%Q n.

End Render.
Import Render.

(** ** Standardization, on binary64 *)

Module Standardize.

(** numpy adds a contiguous run of floats by pairwise summation
    ([pairwise_sum_DOUBLE]).  [X] is the transpose of a C-ordered copy, so
    each of its columns is such a run, and so is each column of the squared
    deviations. *)

(** [for (; i < n; i++) res += a[i]]. *)
Definition sum_rest (res : float64) (a : list float64) : float64 :=
  fold_left fadd a res.

(** [for (i = 8; i < n - (n % 8); i += 8) r[k] += a[i + k]], for the eight
    accumulators [r] and the elements [a] from the ninth on. *)
Fixpoint add_blocks (blocks : nat) (r a : list float64) : list float64 :=
  match blocks with
  | 0 => r
  | S blocks' => add_blocks blocks' (zip_with fadd r (take 8 a)) (drop 8 a)
  end.

(** [((r[0] + r[1]) + (r[2] + r[3])) + ((r[4] + r[5]) + (r[6] + r[7]))]. *)
Definition add_accumulators (r : list float64) : float64 :=
  match r with
  | [r0; r1; r2; r3; r4; r5; r6; r7] =>
      fadd (fadd (fadd r0 r1) (fadd r2 r3)) (fadd (fadd r4 r5) (fadd r6 r7))
  | _ => S754_zero false
  end.

(** The branch for [8 <= n <= 128]: eight accumulators over the blocks of
    eight, then the elements left over. *)
Definition block_sum (a : list float64) : float64 :=
  let n := length a in
  let r := add_blocks (n / 8 - 1) (take 8 a) (drop 8 a) in
  sum_rest (add_accumulators r) (drop (n - n mod 8) a).

(** [pairwise_sum_DOUBLE(a, n, stride)]: fewer than eight elements are
    added from the left, starting from [0.]; up to 128 go through
    [block_sum]; a longer run is cut at [n2 = n/2 - (n/2) % 8] and the sums
    of the two parts are added.  [depth] bounds the recursion. *)
Fixpoint pairwise_sum_rec (depth : nat) (a : list float64) : float64 :=
  let n := length a in
  if decide (n < 8) then sum_rest (S754_zero false) a
  else if decide (n ≤ 128) then block_sum a
  else match depth with
       | 0 => block_sum a
       | S depth' =>
           let n2 := n / 2 - (n / 2) mod 8 in
           fadd (pairwise_sum_rec depth' (take n2 a))
                (pairwise_sum_rec depth' (drop n2 a))
       end.
Definition pairwise_sum (a : list float64) : float64 :=
  pairwise_sum_rec (length a) a.

(** [a.sum()] along a contiguous axis: the reduction starts from the
    identity [0.0] and adds the pairwise sum of the run. *)
Definition np_sum (a : list float64) : float64 :=
  fadd (S754_zero false) (pairwise_sum a).

(** [a.mean()]. *)
Definition np_mean (a : list float64) : float64 :=
  fdiv (np_sum a) (of_Z (Z.of_nat (length a))).

(** [a.std()], numpy's [_var] and [_std]: the square root of the mean
    squared deviation from the mean. *)
Definition np_std (a : list float64) : float64 :=
  let arrmean := np_mean a in
  let x := (λ v, fsub v arrmean) <$> a in
  let x := (λ v, fmul v v) <$> x in
  fsqrt (fdiv (np_sum x) (of_Z (Z.of_nat (length a)))).

(** [X[:, j]] and the number of columns of [X], an array given row by row
    (one row per day, one column per instrument). *)
Definition column (X : list (list float64)) (j : nat) : list float64 :=
  omap (λ row : list float64, row !! j) X.
Definition ncols (X : list (list float64)) : nat :=
  match X with
  | [] => 0
  | row :: _ => length row
  end.

(** [X.std(axis=0)]. *)
Definition std_axis0 (X : list (list float64)) : list float64 :=
  (λ j, np_std (column X j)) <$> seq 0 (ncols X).

(** [X /= X.std(axis=0)]: numpy divides element by element under the IEEE
    rules; a zero divisor gives a warning, never an exception. *)
Definition standardize (X : list (list float64))
    : result (list (list float64)) :=
  let std := std_axis0 X in
  mret ((λ row : list float64, zip_with fdiv row std) <$> X).




(** Every value of the array is the same. *)
Definition constant (a : list float64) : Prop :=
  ∀ u v : float64, u ∈ a → v ∈ a → u = v.

(** Two days of one instrument that moved by the same amount on both. *)
Definition constant_series : list (list float64) := [[of_Z 1]; [of_Z 1]].


(** [n] days of one instrument that moved by [0.1] every day. *)
Definition tenth : float64 := fdiv (of_Z 1) (of_Z 10).
Definition tenth_series (n : nat) : list (list float64) :=
  replicate n [tenth].


End Standardize.
Import Standardize.

(** ** The instrument table and the daily variations *)

Module Tickers.

(** [symbols, names = np.array(list(symbol_dict.items())).T].  [items] is
    [symbol_dict.items()], in the order the dictionary yields them; with no
    item the array has a single empty axis and cannot be unpacked. *)
Definition unpack_items (items : list (string * string))
    : result (list string * list string) :=
  match items with
  | [] => Raise ValueError
  | _ :: _ => Ok (items.*1, items.*2)
  end.

(** [variation = close - open], on two arrays of the same shape (one row
    per instrument, one column per day). *)
Definition variation (close open : list (list float64))
    : list (list float64) :=
  zip_with (zip_with fsub) close open.

(** [m.T] for a two-dimensional array. *)
Definition transpose (m : list (list float64)) : list (list float64) :=
  (λ j, column m j) <$> seq 0 (ncols m).

End Tickers.
Import Tickers.

(** ** The printed clusters *)

Module Clusters.

(** [labels.max()]; numpy refuses an empty array. *)
Definition labels_max (labels : list Z) : result Z :=
  match labels with
  | [] => Raise ValueError
  | l :: ls => Ok (fold_left Z.max ls l)
  end.

(** [names[labels == i]]: the names at the positions where the label is
    [i]; numpy refuses a boolean mask whose length is not that of the
    array. *)
Definition members (names : list string) (labels : list Z) (i : Z)
    : result (list string) :=
  if decide (length labels = length names)
  then Ok (filter (λ p, p.2 = i) (zip names labels)).*1
  else Raise IndexError.

(** [sep.join(l)]. *)
Fixpoint join (sep : string) (l : list string) : string :=
  match l with
  | [] => ""
  | [s] => s
  | s :: l' => s +:+ sep +:+ join sep l'
  end.

(** ['Cluster %i: %s' % ((i + 1), ', '.join(names[labels == i]))]. *)
Definition cluster_line (names : list string) (labels : list Z) (i : Z)
    : result string :=
  ms ← members names labels i;
  mret ("Cluster " +:+ pretty (i + 1)%Z +:+ ": " +:+ join ", " ms).

(** The lines printed by
    [for i in range(n_labels + 1): print(...)]. *)
Definition print_clusters (names : list string) (labels : list Z)
    : result (list string) :=
  n_labels ← labels_max labels;
  mapM (cluster_line names labels) (range (n_labels + 1)).

End Clusters.
Import Clusters.

(** ** Label placement, on binary64 *)

Module Labels64.

(** [embedding.T], one pair of floats per instrument, and the two rows
    [embedding[0]] and [embedding[1]]. *)
Abbreviation points := (list (float64 * float64)) (only parsing).
Definition row0 (embedding : points) : list float64 := embedding.*1.
Definition row1 (embedding : points) : list float64 := embedding.*2.

(** The scan of numpy's [DOUBLE_argmin] from the second element on:
    a value [v] replaces the least one [mp] unless [v >= mp], and a NaN
    ends the scan. *)
Fixpoint argmin_from (min_ind : nat) (mp : float64) (i : nat)
    (l : list float64) : nat :=
  match l with
  | [] => min_ind
  | v :: l' =>
      if fle mp v then argmin_from min_ind mp (S i) l'
      else if is_nan v then i
      else argmin_from i v (S i) l'
  end.

(** [np.argmin(l)]: the first index of the least value, or of the first
    NaN; an empty array is an error. *)
Definition np_argmin (l : list float64) : result nat :=
  match l with
  | [] => Raise ValueError
  | v :: l' => Ok (if is_nan v then 0 else argmin_from 0 v 1 l')
  end.

(** The literal [1] stored into a float array, and the literal [.002]. *)
Definition sentinel : float64 := of_Z 1.
Definition nudge : float64 := fdiv (of_Z 2) (of_Z 1000).

(** [dx = x - embedding[0]; dx[index] = 1] and the same for [dy]. *)
Definition dx (embedding : points) (index : nat) (x : float64)
    : result (list float64) :=
  setitem ((λ c, fsub x c) <$> row0 embedding) index sentinel.
Definition dy (embedding : points) (index : nat) (y : float64)
    : result (list float64) :=
  setitem ((λ c, fsub y c) <$> row1 embedding) index sentinel.

(** The index [np.argmin(np.abs(dy))], which selects [this_dx], and the
    index [np.argmin(np.abs(dx))], which selects [this_dy]. *)
Definition dx_choice (embedding : points) (index : nat) (y : float64)
    : result nat :=
  dy ← dy embedding index y; np_argmin (fabs <$> dy).
Definition dy_choice (embedding : points) (index : nat) (x : float64)
    : result nat :=
  dx ← dx embedding index x; np_argmin (fabs <$> dx).

(** [this_dx = dx[np.argmin(np.abs(dy))]]. *)
Definition this_dx (embedding : points) (index : nat) (x y : float64)
    : result float64 :=
  dx ← dx embedding index x;
  i ← dx_choice embedding index y;
  getitem dx i.

(** [this_dy = dy[np.argmin(np.abs(dx))]]. *)
Definition this_dy (embedding : points) (index : nat) (x y : float64)
    : result float64 :=
  dy ← dy embedding index y;
  j ← dy_choice embedding index x;
  getitem dy j.

(** The two [if] statements. *)
Definition horizontal (this_dx x : float64) : value * float64 :=
  if flt (S754_zero false) this_dx then (PyStr "left", fadd x nudge)
  else (PyStr "right", fsub x nudge).
Definition vertical (this_dy y : float64) : value * float64 :=
  if flt (S754_zero false) this_dy then (PyStr "bottom", fadd y nudge)
  else (PyTuple [PyStr "top"], fsub y nudge).

(** Two points a quarter of a unit apart on both axes, and two points five
    units apart. *)
Definition quarter : float64 := fdiv (of_Z 1) (of_Z 4).
Definition near_pair : points :=
  [(S754_zero false, S754_zero false); (quarter, quarter)].
Definition far_pair : points :=
  [(S754_zero false, S754_zero false); (of_Z 5, of_Z 5)].

End Labels64.

(* ===================================================================== *)
(** * Part II: properties                                                 *)
(* ===================================================================== *)

(** ** The order of binary64 *)

Section FloatOrder.

Lemma SFcompare_antisym (a b : float64) (c : comparison) :
  SFcompare a b = Some c → SFcompare b a = Some (CompOpp c).
Proof.
  destruct a as [sa|sa| |sa ma ea], b as [sb|sb| |sb mb eb]; simpl;
    try discriminate;
    try (destruct sa; intros [= <-]; reflexivity);
    try (destruct sb; intros [= <-]; reflexivity);
    try (destruct sa, sb; intros [= <-]; reflexivity).
  intros [= <-]. f_equal.
  change (PosDef.Pos.compare_cont Eq ma mb) with (Pos.compare ma mb).
  change (PosDef.Pos.compare_cont Eq mb ma) with (Pos.compare mb ma).
  rewrite (Z.compare_antisym ea eb), (Pos.compare_antisym ma mb).
  destruct sa, sb; try reflexivity; destruct (ea ?= eb)%Z; simpl;
    try reflexivity; destruct (ma ?= mb)%positive; reflexivity.
Qed.

Lemma SFcompare_total (a b : float64) :
  is_nan a = false → is_nan b = false → ∃ c, SFcompare a b = Some c.
Proof. destruct a, b; simpl; try discriminate; eauto. Qed.

(** [<] is transitive. *)
Lemma flt_trans (a b c : float64) :
  flt a b = true → flt b c = true → flt a c = true.
Proof.
  unfold flt, SFltb.
  destruct a as [sa|sa| |sa ma ea], b as [sb|sb| |sb mb eb],
    c as [sc|sc| |sc mc ec]; simpl;
    try discriminate;
    try (destruct sa, sb, sc; simpl; (discriminate || reflexivity)).
  all: try (destruct sa, sb; simpl; (discriminate || reflexivity)).
  all: try (destruct sa, sc; simpl; (discriminate || reflexivity)).
  all: try (destruct sb, sc; simpl; (discriminate || reflexivity)).
  all: try (destruct sa; simpl; (discriminate || reflexivity)).
  all: try (destruct sb; simpl; (discriminate || reflexivity)).
  all: try (destruct sc; simpl; (discriminate || reflexivity)).
  change (PosDef.Pos.compare_cont Eq ma mb) with (Pos.compare ma mb).
  change (PosDef.Pos.compare_cont Eq mb mc) with (Pos.compare mb mc).
  change (PosDef.Pos.compare_cont Eq ma mc) with (Pos.compare ma mc).
  destruct sa, sb, sc; try discriminate; try reflexivity;
    destruct (Z.compare_spec ea eb), (Z.compare_spec eb ec),
      (Z.compare_spec ea ec);
    try discriminate; try reflexivity; try lia; subst;
    destruct (Pos.compare_spec ma mb), (Pos.compare_spec mb mc),
      (Pos.compare_spec ma mc);
    simpl; try discriminate; try reflexivity; try lia.
Qed.

(** No float is below itself. *)
Lemma flt_irrefl (a : float64) : flt a a = false.
Proof.
  unfold flt, SFltb. destruct (SFcompare a a) as [c|] eqn:E; [|done].
  pose proof (SFcompare_antisym _ _ _ E) as E'. rewrite E in E'.
  by destruct c.
Qed.

(** [a <= b] excludes [b < a]. *)
Lemma fle_not_flt (a b : float64) : fle a b = true → flt b a = false.
Proof.
  unfold fle, flt, SFleb, SFltb.
  destruct (SFcompare a b) as [c|] eqn:E; [|done].
  rewrite (SFcompare_antisym _ _ _ E). by destruct c.
Qed.

(** Without a NaN, [a <= b] or [b < a]. *)
Lemma not_fle_flt (a b : float64) :
  is_nan a = false → is_nan b = false → fle a b = false → flt b a = true.
Proof.
  intros Ha Hb. unfold fle, flt, SFleb, SFltb.
  destruct (SFcompare_total a b Ha Hb) as [c E]. rewrite E.
  rewrite (SFcompare_antisym _ _ _ E). by destruct c.
Qed.

(** Nothing is below a NaN. *)
Lemma flt_nan_r (a b : float64) : is_nan b = true → flt a b = false.
Proof. destruct b; try discriminate. intros _. by destruct a. Qed.


End FloatOrder.

(** ** The colour-scale helper *)

Section ColorscaleFacts.
Import Colorscale.

Example gray_two_stops :
  matplotlib_to_plotly gray 2
  = Ok [(S754_zero false, "rgb(0, 0, 0)"%string);
        (of_Z 1, "rgb(255, 255, 255)"%string)].
Proof. vm_compute. reflexivity. Qed.

Example gray_one_stop_raises :
  matplotlib_to_plotly gray 1 = Raise ZeroDivisionError.
Proof. reflexivity. Qed.

Lemma fold_append_stop cmap h ks acc :
  fold_left (append_stop cmap h) ks acc
  = acc ++ ((λ k, (fmul (of_Z k) h,
                   "rgb" +:+ str_tuple3 (channels cmap (fmul (of_Z k) h))))
            <$> ks).
Proof.
  revert acc. induction ks as [|k ks IH]; intros acc; simpl.
  - by rewrite app_nil_r.
  - rewrite IH. unfold append_stop. by rewrite <- app_assoc.
Qed.

Lemma truediv_nonzero (a : float64) (n : Z) :
  n ≠ 0%Z → truediv a n = Ok (fdiv a (of_Z n)).
Proof. intros Hn. unfold truediv. by case_decide. Qed.

(** For a count above one the helper returns, and its stops are the
    images of [0 .. N-1]. *)
Lemma matplotlib_to_plotly_stops cmap (N : Z) :
  (1 < N)%Z →
  matplotlib_to_plotly cmap N
  = Ok ((λ k, let t := fmul (of_Z k) (fdiv (of_Z 1) (of_Z (N - 1))) in
              (t, "rgb" +:+ str_tuple3 (channels cmap t)))
        <$> range N).
Proof.
  intros HN. unfold matplotlib_to_plotly.
  rewrite truediv_nonzero by lia.
  simpl. unfold mret, result_ret. f_equal. by rewrite fold_append_stop.
Qed.

(** For a count above one the helper returns as many stops. *)
Lemma matplotlib_to_plotly_returns cmap (N : Z) :
  (1 < N)%Z →
  ∃ stops, Colorscale.matplotlib_to_plotly cmap N = Ok stops
           ∧ length stops = Z.to_nat N.
Proof.
  intros HN. eexists. split; [by apply matplotlib_to_plotly_stops|].
  rewrite length_fmap. unfold range. by rewrite length_fmap, length_seq.
Qed.

Lemma range_lookup (n : Z) (i : nat) :
  (i < Z.to_nat n)%nat → range n !! i = Some (Z.of_nat i).
Proof.
  intros Hi. unfold range. rewrite list_lookup_fmap.
  by rewrite lookup_seq_lt.
Qed.

Lemma length_range (n : Z) : length (range n) = Z.to_nat n.
Proof. unfold range. by rewrite length_fmap, length_seq. Qed.


(** The count of 500 that the notebook passes: the last position is the
    product [499 * (1.0/499)], which is not [1.0] but the double just
    below, and the grey ramp is cut to 254 there. *)
Example gray_last_stop :
  ∃ stops, matplotlib_to_plotly gray 500 = Ok stops
           ∧ stops !! 499%nat
             = Some (below_one, "rgb(254, 254, 254)"%string).
Proof.
  eexists. split; [vm_compute; reflexivity|].
  vm_compute. reflexivity.
Qed.

Example exact_last_fraction : fdiv (of_Z 499) (of_Z 499) = of_Z 1.
Proof. vm_compute. reflexivity. Qed.

(** Two consecutive integers above [2^53] have the same float: for such
    counts the positions [k*h] cannot all differ. *)
Example of_Z_collapses : of_Z (2 ^ 53 + 1) = of_Z (2 ^ 53).
Proof. vm_compute. reflexivity. Qed.



End ColorscaleFacts.

Section ColorscaleShape.
Import Colorscale.




(** A count of one divides by zero. *)
Lemma matplotlib_to_plotly_one cmap :
  matplotlib_to_plotly cmap 1 = Raise ZeroDivisionError.
Proof. reflexivity. Qed.

(** A count below one skips the loop: the step is [1.0/(N-1)] with
    [N - 1 < 0], and [range(N)] is empty. *)
Lemma matplotlib_to_plotly_nonpositive cmap (N : Z) :
  (N <= 0)%Z → matplotlib_to_plotly cmap N = Ok [].
Proof.
  intros HN. unfold matplotlib_to_plotly.
  rewrite truediv_nonzero by lia.
  simpl. unfold mret, result_ret. f_equal.
  unfold range. by rewrite Z2Nat.nonpos.
Qed.

(** C3, as stated, fails: with a count of zero the helper returns the empty
    list of stops instead of raising. *)
Lemma matplotlib_to_plotly_zero_returns :
  ¬ (∀ (cmap : colormap) (N : Z),
       (N <= 1)%Z → raises (matplotlib_to_plotly cmap N)).
Proof.
  intros H. destruct (H gray 0%Z) as [e He]; [lia|]. discriminate He.
Qed.

(** C3, amended.  Among the counts [N <= 1], only [N = 1] raises (a
    division by zero in the step size); every [N <= 0] returns the empty
    list of colour stops. *)
Theorem matplotlib_to_plotly_degenerate (cmap : colormap) (N : Z) :
  (N <= 1)%Z →
  matplotlib_to_plotly cmap N
  = if decide (N = 1%Z) then Raise ZeroDivisionError else Ok [].
Proof.
  intros HN. case_decide as E.
  - subst N. apply matplotlib_to_plotly_one.
  - apply matplotlib_to_plotly_nonpositive. lia.
Qed.

Lemma matplotlib_to_plotly_degenerate_witness :
  matplotlib_to_plotly gray 1 = Raise ZeroDivisionError
  ∧ matplotlib_to_plotly gray 0 = Ok []
  ∧ matplotlib_to_plotly gray (-4) = Ok [].
Proof.
  split; [|split].
  - apply (matplotlib_to_plotly_degenerate gray 1). lia.
  - apply (matplotlib_to_plotly_degenerate gray 0). lia.
  - apply (matplotlib_to_plotly_degenerate gray (-4)). lia.
Defined.

End ColorscaleShape.

(** ** Python helpers *)

Section PyFacts.
Local Open Scope Q_scope.

Lemma Qltb_lt (a b : Q) : Qltb a b = true ↔ a < b.
Proof.
  unfold Qltb. rewrite negb_true_iff. split.
  - intros H. apply Qnot_le_lt. intros Hle.
    apply Qle_bool_iff in Hle. congruence.
  - intros H. destruct (Qle_bool b a) eqn:E; [|done].
    apply Qle_bool_iff in E. exfalso. by apply (Qlt_not_le a b).
Qed.

Lemma Qltb_ge (a b : Q) : Qltb a b = false ↔ b <= a.
Proof.
  unfold Qltb. rewrite negb_false_iff. apply Qle_bool_iff.
Qed.

Lemma getitem_Ok {A} (l : list A) (i : nat) (a : A) :
  getitem l i = Ok a ↔ l !! i = Some a.
Proof.
  unfold getitem. destruct (l !! i); split; intros H; by inversion H.
Qed.

Lemma setitem_Ok {A} (l : list A) (i : nat) (v : A) :
  (i < length l)%nat → setitem l i v = Ok (<[i:=v]> l).
Proof. intros H. unfold setitem. by rewrite decide_True. Qed.

Lemma setitem_inv {A} (l l' : list A) (i : nat) (v : A) :
  setitem l i v = Ok l' → (i < length l)%nat ∧ l' = <[i:=v]> l.
Proof.
  unfold setitem. case_decide as Hd; intros H; inversion H. done.
Qed.

(** A [mapM] that returns ran its body on every element, in order. *)
Lemma mapM_Ok_inv {A B} (f : A → result B) (l : list A) (k : list B) :
  mapM f l = Ok k →
  length k = length l
  ∧ ∀ (i : nat) (b : B), k !! i = Some b →
      ∃ a, l !! i = Some a ∧ f a = Ok b.
Proof.
  revert k. induction l as [|a l IH]; intros k; simpl.
  - intros H. inversion H. split; [done|]. intros i b Hb. done.
  - destruct (f a) as [b|e] eqn:Hfa; simpl; [|done].
    destruct (mapM f l) as [k'|e] eqn:Hl; simpl; [|done].
    intros H. inversion H; subst k. destruct (IH k' eq_refl) as [Hlen Hk].
    split; [simpl; by rewrite Hlen|].
    intros [|i] b' Hb'; simpl in *.
    + inversion Hb'; subst. eauto.
    + by apply Hk.
Qed.

(** A [mapM] whose body returns on every element returns. *)
Lemma mapM_returns {A B} (f : A → result B) (l : list A) :
  (∀ (i : nat) (a : A), l !! i = Some a → returns (f a)) →
  returns (mapM f l).
Proof.
  induction l as [|a l IH]; intros Hf; simpl.
  - by eexists.
  - destruct (Hf 0%nat a eq_refl) as [b ->]. simpl.
    destruct IH as [k ->]; [|by eexists].
    intros i a' Ha'. by apply (Hf (S i)).
Qed.

Lemma enumerate_lookup {A} (l : list A) (i : nat) (p : nat * A) :
  enumerate l !! i = Some p ↔ p.1 = i ∧ l !! i = Some p.2.
Proof.
  unfold enumerate. rewrite list_lookup_imap.
  destruct (l !! i) as [a|]; simpl; destruct p as [j b]; simpl.
  - split; [intros H; by inversion H|intros [-> H]; by inversion H].
  - split; [done|intros [_ H]; done].
Qed.

End PyFacts.

(** ** [np.argmin] *)

Section Argmin.
Local Open Scope Q_scope.

(** The scan keeps the first index of the least value seen so far. *)
Lemma argmin_from_spec (L : list Q) (l pre : list Q) (best : nat) (least : Q) :
  L = pre ++ l →
  (best < length pre)%nat →
  L !! best = Some least →
  (∀ (k : nat) v, (k < length pre)%nat → L !! k = Some v → least <= v) →
  (∀ (k : nat) v, (k < best)%nat → L !! k = Some v → least < v) →
  ∃ m, L !! argmin_from best least (length pre) l = Some m
       ∧ (∀ (k : nat) v, L !! k = Some v → m <= v)
       ∧ (∀ (k : nat) v,
            (k < argmin_from best least (length pre) l)%nat →
            L !! k = Some v → m < v).
Proof.
  revert pre best least. induction l as [|w l IH];
    intros pre best least HL Hbest Hleast Hmin Hfirst; simpl.
  - exists least. split; [done|]. split; [|done].
    intros k v Hk. apply (Hmin k v); [|done].
    apply lookup_lt_Some in Hk. rewrite HL, app_nil_r in Hk. done.
  - assert (L !! length pre = Some w) as Hw.
    { rewrite HL. by rewrite list_lookup_middle. }
    assert (L = (pre ++ [w]) ++ l) as HL'.
    { by rewrite <- app_assoc. }
    assert (length (pre ++ [w]) = S (length pre)) as Hlen.
    { rewrite length_app. simpl. lia. }
    destruct (Qltb w least) eqn:E.
    + apply Qltb_lt in E.
      rewrite <- Hlen. apply IH; try done.
      * rewrite Hlen. lia.
      * intros k v Hk Hv. rewrite Hlen in Hk.
        destruct (decide (k = length pre)) as [->|Hne].
        -- rewrite Hw in Hv. inversion Hv. apply Qle_refl.
        -- apply Qlt_le_weak, Qlt_le_trans with least; [done|].
           apply (Hmin k v); [lia|done].
      * intros k v Hk Hv.
        apply Qlt_le_trans with least; [done|].
        apply (Hmin k v); [lia|done].
    + apply Qltb_ge in E.
      rewrite <- Hlen. apply IH; try done.
      * rewrite Hlen. lia.
      * intros k v Hk Hv. rewrite Hlen in Hk.
        destruct (decide (k = length pre)) as [->|Hne].
        -- rewrite Hw in Hv. by inversion Hv; subst.
        -- apply (Hmin k v); [lia|done].
Qed.

(** [np.argmin] of a non-empty array returns the first index of its least
    element. *)
Lemma np_argmin_spec (l : list Q) :
  l ≠ [] →
  ∃ (r : nat) m,
    np_argmin l = Ok r
    ∧ l !! r = Some m
    ∧ (∀ (k : nat) v, l !! k = Some v → m <= v)
    ∧ (∀ (k : nat) v, (k < r)%nat → l !! k = Some v → m < v).
Proof.
  destruct l as [|v l]; [done|]. intros _. simpl.
  destruct (argmin_from_spec (v :: l) l [v] 0 v) as (m & Hm & Hle & Hlt);
    try done.
  - simpl. lia.
  - intros [|k] w Hk Hw; simpl in *; [|lia]. inversion Hw. apply Qle_refl.
  - intros k w Hk. lia.
  - simpl in *. eauto 10.
Qed.

End Argmin.

(** ** Label placement: the loop runs and what one turn computes *)

Section PlacementFacts.
Local Open Scope Q_scope.

Lemma dx_Ok (e : points) (i : nat) (x : Q) :
  (i < length e)%nat →
  dx e i x = Ok (<[i:=1]> ((λ c, x - c) <$> row0 e)).
Proof.
  intros Hi. unfold dx. apply setitem_Ok.
  unfold row0. by rewrite !length_fmap.
Qed.

Lemma dy_Ok (e : points) (i : nat) (y : Q) :
  (i < length e)%nat →
  dy e i y = Ok (<[i:=1]> ((λ c, y - c) <$> row1 e)).
Proof.
  intros Hi. unfold dy. apply setitem_Ok.
  unfold row1. by rewrite !length_fmap.
Qed.

(** The array [np.abs(d)] for a displacement array [d] with its sentinel:
    one at the target, the distance to the point elsewhere. *)
Lemma abs_sentinel_lookup (cs : list Q) (i k : nat) (c0 : Q) :
  (i < length cs)%nat →
  (Qabs <$> <[i:=1]> ((λ c, c0 - c) <$> cs)) !! k
  = if decide (k = i) then Some 1
    else (λ c, Qabs (c0 - c)) <$> cs !! k.
Proof.
  intros Hi. rewrite list_lookup_fmap. case_decide as Hk.
  - subst k. rewrite list_lookup_insert_eq by by rewrite length_fmap.
    reflexivity.
  - rewrite list_lookup_insert_ne by done.
    rewrite list_lookup_fmap. by destruct (cs !! k).
Qed.

(** The selection made on one axis: [np.argmin(np.abs(d))] where [d] is
    the displacement array along [cs] with the sentinel at [i]. *)
Lemma sentinel_argmin (cs : list Q) (i : nat) (c0 : Q) :
  (i < length cs)%nat →
  ∃ (r : nat) m,
    np_argmin (Qabs <$> <[i:=1]> ((λ c, c0 - c) <$> cs)) = Ok r
    ∧ (r < length cs)%nat
    ∧ (if decide (r = i) then Some 1
       else (λ c, Qabs (c0 - c)) <$> cs !! r) = Some m
    ∧ m <= 1
    ∧ (∀ (k : nat) c, k ≠ i → cs !! k = Some c → m <= Qabs (c0 - c))
    ∧ (∀ (k : nat) c, (k < r)%nat → k ≠ i → cs !! k = Some c →
         m < Qabs (c0 - c)).
Proof.
  intros Hi.
  destruct (np_argmin_spec (Qabs <$> <[i:=1]> ((λ c, c0 - c) <$> cs)))
    as (r & m & Hr & Hm & Hle & Hlt).
  { intros E. apply (f_equal length) in E.
    rewrite length_fmap, length_insert, length_fmap in E. simpl in E. lia. }
  exists r, m. split; [done|].
  pose proof (lookup_lt_Some _ _ _ Hm) as Hlen.
  rewrite length_fmap, length_insert, length_fmap in Hlen.
  rewrite abs_sentinel_lookup in Hm by done.
  repeat split; try done.
  - apply (Hle i). rewrite abs_sentinel_lookup by done.
    by rewrite decide_True.
  - intros k c Hk Hc. apply (Hle k).
    rewrite abs_sentinel_lookup by done.
    rewrite decide_False by done. by rewrite Hc.
  - intros k c Hkr Hk Hc. apply (Hlt k); [done|].
    rewrite abs_sentinel_lookup by done.
    rewrite decide_False by done. by rewrite Hc.
Qed.

Lemma dx_choice_returns (e : points) (i : nat) (y : Q) :
  (i < length e)%nat →
  ∃ r : nat, dx_choice e i y = Ok r ∧ (r < length e)%nat.
Proof.
  intros Hi. unfold dx_choice. rewrite dy_Ok by done. simpl.
  destruct (sentinel_argmin (row1 e) i y) as (r & m & Hr & Hlen & _).
  { unfold row1. by rewrite length_fmap. }
  exists r. split; [done|]. unfold row1 in Hlen.
  by rewrite length_fmap in Hlen.
Qed.

Lemma dy_choice_returns (e : points) (i : nat) (x : Q) :
  (i < length e)%nat →
  ∃ r : nat, dy_choice e i x = Ok r ∧ (r < length e)%nat.
Proof.
  intros Hi. unfold dy_choice. rewrite dx_Ok by done. simpl.
  destruct (sentinel_argmin (row0 e) i x) as (r & m & Hr & Hlen & _).
  { unfold row0. by rewrite length_fmap. }
  exists r. split; [done|]. unfold row0 in Hlen.
  by rewrite length_fmap in Hlen.
Qed.

Lemma this_dx_returns (e : points) (i : nat) (x y : Q) :
  (i < length e)%nat → returns (this_dx e i x y).
Proof.
  intros Hi. unfold this_dx. rewrite dx_Ok by done. simpl.
  destruct (dx_choice_returns e i y Hi) as (r & -> & Hr). simpl.
  unfold getitem.
  destruct (lookup_lt_is_Some_2 (<[i:=1]> ((λ c, x - c) <$> row0 e)) r)
    as [v ->]; [|by eexists].
  unfold row0. by rewrite length_insert, !length_fmap.
Qed.

Lemma this_dy_returns (e : points) (i : nat) (x y : Q) :
  (i < length e)%nat → returns (this_dy e i x y).
Proof.
  intros Hi. unfold this_dy. rewrite dy_Ok by done. simpl.
  destruct (dy_choice_returns e i x Hi) as (r & -> & Hr). simpl.
  unfold getitem.
  destruct (lookup_lt_is_Some_2 (<[i:=1]> ((λ c, y - c) <$> row1 e)) r)
    as [v ->]; [|by eexists].
  unfold row1. by rewrite length_insert, !length_fmap.
Qed.

(** What a turn of the loop leaves in its local variables. *)
Lemma place_inv (e : points) (i : nat) name label (x y : Q) (p : placement) :
  place e i name label x y = Ok p →
  ∃ tdx tdy,
    this_dx e i x y = Ok tdx
    ∧ this_dy e i x y = Ok tdy
    ∧ horizontalalignment p = (horizontal tdx x).1
    ∧ placed_x p = (horizontal tdx x).2
    ∧ verticalalignment p = (vertical tdy y).1
    ∧ placed_y p = (vertical tdy y).2
    ∧ annot p = {[ "x" := PyFloat (placed_x p); "y" := PyFloat (placed_y p);
                   "text" := PyStr name; "showarrow" := PyBool false ]}.
Proof.
  unfold place.
  destruct (this_dx e i x y) as [tdx|] eqn:Hdx; simpl; [|done].
  destruct (this_dy e i x y) as [tdy|] eqn:Hdy; simpl; [|done].
  destruct (horizontal tdx x) as [ha x'] eqn:Hh.
  destruct (vertical tdy y) as [va y'] eqn:Hv.
  intros H. inversion H; subst p; simpl.
  exists tdx, tdy. rewrite Hh, Hv. simpl. done.
Qed.

Lemma place_returns (e : points) (i : nat) name label (x y : Q) :
  (i < length e)%nat → returns (place e i name label x y).
Proof.
  intros Hi. unfold place.
  destruct (this_dx_returns e i x y Hi) as [tdx ->]. simpl.
  destruct (this_dy_returns e i x y Hi) as [tdy ->]. simpl.
  destruct (horizontal tdx x), (vertical tdy y). by eexists.
Qed.

(** The loop visits the instruments in order. *)
Lemma placements_inv names labels (e : points) ps (i : nat) (p : placement) :
  placements names labels e = Ok ps →
  ps !! i = Some p →
  ∃ name label x y,
    names !! i = Some name ∧ labels !! i = Some label
    ∧ e !! i = Some (x, y)
    ∧ place e i name label x y = Ok p.
Proof.
  intros Hps Hp. unfold placements in Hps.
  destruct (mapM_Ok_inv _ _ _ Hps) as [_ Hk].
  destruct (Hk i p Hp) as ([j [[name label] [x y]]] & Hin & Hrun).
  apply enumerate_lookup in Hin as [Hj Hin]. simpl in Hj, Hin. subst j.
  apply lookup_zip_with_Some in Hin as (nl & xy & E & Hnl & Hxy).
  apply lookup_zip_with_Some in Hnl as (n & l & E' & Hn & Hl).
  simplify_eq. eauto 10.
Qed.

(** The loop never raises, and makes one record for every instrument that
    has a name, a label and a point. *)
Lemma placements_returns names labels (e : points) :
  ∃ ps, placements names labels e = Ok ps
        ∧ length ps = length (zip (zip names labels) e).
Proof.
  destruct (mapM_returns
    (λ '(index, (name, label, (x, y))), place e index name label x y)
    (enumerate (zip (zip names labels) e))) as [ps Hps].
  - intros i [j [[name label] [x y]]] Hin.
    apply enumerate_lookup in Hin as [Hj Hin]. simpl in Hj, Hin. subst j.
    apply place_returns.
    apply lookup_zip_with_Some in Hin as (nl & xy & E & Hnl & Hxy).
    by apply lookup_lt_Some in Hxy.
  - exists ps. split; [done|].
    destruct (mapM_Ok_inv _ _ _ Hps) as [-> _].
    unfold enumerate. by rewrite length_imap.
Qed.

End PlacementFacts.

(** ** Label placement: the selection and the two branches *)

Section SelectionFacts.
Local Open Scope Q_scope.

(** When some other point is less than one unit away along the vertical
    axis, the selection for [this_dx] is not the target. *)
Lemma dx_choice_skips_self (e : points) (index j : nat) (y : Q) (pj : Q * Q) :
  (index < length e)%nat →
  e !! j = Some pj → j ≠ index → Qabs (y - pj.2) < 1 →
  ∃ r : nat, dx_choice e index y = Ok r ∧ r ≠ index.
Proof.
  intros Hi Hj Hne Hnear. unfold dx_choice. rewrite dy_Ok by done. simpl.
  destruct (sentinel_argmin (row1 e) index y)
    as (r & m & Hr & Hlen & Hm & _ & Hle & _).
  { unfold row1. by rewrite length_fmap. }
  exists r. split; [done|]. intros ->.
  rewrite decide_True in Hm by done. inversion Hm; subst m.
  assert (1 <= Qabs (y - pj.2)) as H.
  { apply (Hle j); [done|]. unfold row1. rewrite list_lookup_fmap.
    by rewrite Hj. }
  by apply (Qlt_not_le _ _ Hnear).
Qed.

(** When the selection is another point, [this_dx] is the horizontal
    displacement to a point that is, among the others, nearest along the
    vertical axis. *)
Lemma this_dx_neighbor (e : points) (index r : nat) (x y : Q) :
  (index < length e)%nat →
  dx_choice e index y = Ok r → r ≠ index →
  ∃ pr : Q * Q,
    e !! r = Some pr
    ∧ this_dx e index x y = Ok (x - pr.1)
    ∧ ∀ (k : nat) (pk : Q * Q), k ≠ index → e !! k = Some pk →
        Qabs (y - pr.2) <= Qabs (y - pk.2).
Proof.
  intros Hi Hr Hne. unfold this_dx. rewrite dx_Ok by done. simpl.
  rewrite Hr. simpl. unfold dx_choice in Hr. rewrite dy_Ok in Hr by done.
  simpl in Hr.
  destruct (sentinel_argmin (row1 e) index y)
    as (r' & m & Hr' & Hlen & Hm & _ & Hle & _).
  { unfold row1. by rewrite length_fmap. }
  rewrite Hr' in Hr. inversion Hr; subst r'.
  rewrite decide_False in Hm by done.
  unfold row1 in Hm. rewrite list_lookup_fmap in Hm.
  destruct (e !! r) as [pr|] eqn:Her; [|done]. simpl in Hm.
  inversion Hm; subst m. exists pr. split; [done|]. split.
  - apply getitem_Ok. rewrite list_lookup_insert_ne by done.
    unfold row0. rewrite !list_lookup_fmap. by rewrite Her.
  - intros k pk Hk Hpk. apply (Hle k); [done|].
    unfold row1. rewrite list_lookup_fmap. by rewrite Hpk.
Qed.

(** The same two facts for [this_dy], with the axes exchanged. *)
Lemma dy_choice_skips_self (e : points) (index j : nat) (x : Q) (pj : Q * Q) :
  (index < length e)%nat →
  e !! j = Some pj → j ≠ index → Qabs (x - pj.1) < 1 →
  ∃ r : nat, dy_choice e index x = Ok r ∧ r ≠ index.
Proof.
  intros Hi Hj Hne Hnear. unfold dy_choice. rewrite dx_Ok by done. simpl.
  destruct (sentinel_argmin (row0 e) index x)
    as (r & m & Hr & Hlen & Hm & _ & Hle & _).
  { unfold row0. by rewrite length_fmap. }
  exists r. split; [done|]. intros ->.
  rewrite decide_True in Hm by done. inversion Hm; subst m.
  assert (1 <= Qabs (x - pj.1)) as H.
  { apply (Hle j); [done|]. unfold row0. rewrite list_lookup_fmap.
    by rewrite Hj. }
  by apply (Qlt_not_le _ _ Hnear).
Qed.

Lemma this_dy_neighbor (e : points) (index r : nat) (x y : Q) :
  (index < length e)%nat →
  dy_choice e index x = Ok r → r ≠ index →
  ∃ pr : Q * Q,
    e !! r = Some pr
    ∧ this_dy e index x y = Ok (y - pr.2)
    ∧ ∀ (k : nat) (pk : Q * Q), k ≠ index → e !! k = Some pk →
        Qabs (x - pr.1) <= Qabs (x - pk.1).
Proof.
  intros Hi Hr Hne. unfold this_dy. rewrite dy_Ok by done. simpl.
  rewrite Hr. simpl. unfold dy_choice in Hr. rewrite dx_Ok in Hr by done.
  simpl in Hr.
  destruct (sentinel_argmin (row0 e) index x)
    as (r' & m & Hr' & Hlen & Hm & _ & Hle & _).
  { unfold row0. by rewrite length_fmap. }
  rewrite Hr' in Hr. inversion Hr; subst r'.
  rewrite decide_False in Hm by done.
  unfold row0 in Hm. rewrite list_lookup_fmap in Hm.
  destruct (e !! r) as [pr|] eqn:Her; [|done]. simpl in Hm.
  inversion Hm; subst m. exists pr. split; [done|]. split.
  - apply getitem_Ok. rewrite list_lookup_insert_ne by done.
    unfold row1. rewrite !list_lookup_fmap. by rewrite Her.
  - intros k pk Hk Hpk. apply (Hle k); [done|].
    unfold row0. rewrite list_lookup_fmap. by rewrite Hpk.
Qed.

(** The two [if] statements, branch by branch. *)
Lemma horizontal_rule (tdx x : Q) :
  (0 < tdx → horizontal tdx x = (PyStr "left", x + 0.002))
  ∧ (tdx <= 0 → horizontal tdx x = (PyStr "right", x - 0.002)).
Proof.
  unfold horizontal. split; intros H.
  - apply Qltb_lt in H. by rewrite H.
  - apply Qltb_ge in H. by rewrite H.
Qed.

Lemma vertical_rule (tdy y : Q) :
  (0 < tdy → vertical tdy y = (PyStr "bottom", y + 0.002))
  ∧ (tdy <= 0 → vertical tdy y = (PyTuple [PyStr "top"], y - 0.002)).
Proof.
  unfold vertical. split; intros H.
  - apply Qltb_lt in H. by rewrite H.
  - apply Qltb_ge in H. by rewrite H.
Qed.

Lemma Qltb_sign (q : Q) : Qltb 0 q = (Qsign q =? 1)%Z.
Proof.
  unfold Qsign. destruct q as [[|n|n] d]; simpl.
  - reflexivity.
  - symmetry. reflexivity.
  - reflexivity.
Qed.

(** C1.  Self-exclusion fails on the code: on two distinct points that are
    more than one unit apart on both axes, both selections for the first
    point return the index of that point itself, because the sentinel [1]
    is then the least absolute displacement. *)
Theorem sentinel_selects_self :
  length far_apart = 2%nat
  ∧ far_apart !! 0%nat ≠ far_apart !! 1%nat
  ∧ far_apart !! 0%nat = Some (0, 0)
  ∧ dx_choice far_apart 0 0 = Ok 0%nat
  ∧ dy_choice far_apart 0 0 = Ok 0%nat.
Proof. repeat split; done. Qed.

(** C5.  The direction rule fails on the code at the same input: the
    displacement selected for the first of the two points of [far_apart]
    is the sentinel [1] on both axes, while the only other point lies at
    displacement [0 - 5] on both axes. *)
Theorem direction_from_sentinel :
  far_apart !! 0%nat = Some (0, 0)
  ∧ far_apart !! 1%nat = Some (5, 5)
  ∧ this_dx far_apart 0 0 0 = Ok 1
  ∧ this_dy far_apart 0 0 0 = Ok 1
  ∧ ¬ 1 == 0 - 5.
Proof. repeat split; done. Qed.

(** C6.  The alignment rule fails on the code in the downward branch: for
    the first of the two points of [close_pair] the selected vertical
    displacement is negative and [verticalalignment] is bound to the
    one-element tuple [('top',)], not to the string ['top']; the three
    other branches bind strings. *)
Theorem top_alignment_is_a_tuple :
  place close_pair 0 "A" 0 0 0 = Ok close_pair_first
  ∧ this_dy close_pair 0 0 0 = Ok (0 - 0.5)
  ∧ 0 - 0.5 <= 0
  ∧ verticalalignment close_pair_first = PyTuple [PyStr "top"]
  ∧ verticalalignment close_pair_first ≠ PyStr "top".
Proof. repeat split; done. Qed.

End SelectionFacts.

(** ** Label placement: determinism and the emitted record *)

Section RecordFacts.
Local Open Scope Q_scope.

(** C8.  One turn of the loop is a function of the coordinates and of the
    target index: a second run on the same coordinates gives the same
    alignments and the same nudged coordinates, whatever the name and the
    cluster label; and across any two runs, each alignment is the same as
    soon as the selected displacement has the same sign. *)
Theorem placement_deterministic (e : points) (i : nat) name label (x y : Q)
    (p : placement) (tdx tdy : Q) :
  place e i name label x y = Ok p →
  this_dx e i x y = Ok tdx →
  this_dy e i x y = Ok tdy →
  (∀ name' label' p',
     place e i name' label' x y = Ok p' →
     horizontalalignment p' = horizontalalignment p
     ∧ verticalalignment p' = verticalalignment p
     ∧ placed_x p' = placed_x p
     ∧ placed_y p' = placed_y p)
  ∧ (∀ (e' : points) (i' : nat) name' label' (x' y' : Q) p' tdx' tdy',
       place e' i' name' label' x' y' = Ok p' →
       this_dx e' i' x' y' = Ok tdx' →
       this_dy e' i' x' y' = Ok tdy' →
       (Qsign tdx' = Qsign tdx →
        horizontalalignment p' = horizontalalignment p)
       ∧ (Qsign tdy' = Qsign tdy →
          verticalalignment p' = verticalalignment p)).
Proof.
  intros Hp Hdx Hdy.
  destruct (place_inv _ _ _ _ _ _ _ Hp)
    as (dx0 & dy0 & Hdx0 & Hdy0 & Hha & Hx & Hva & Hy & _).
  rewrite Hdx in Hdx0. rewrite Hdy in Hdy0. simplify_eq. split.
  - intros name' label' p' Hp'.
    destruct (place_inv _ _ _ _ _ _ _ Hp')
      as (dx1 & dy1 & Hdx1 & Hdy1 & Hha' & Hx' & Hva' & Hy' & _).
    rewrite Hdx in Hdx1. rewrite Hdy in Hdy1. simplify_eq.
    by rewrite Hha, Hha', Hva, Hva', Hx, Hx', Hy, Hy'.
  - intros e' i' name' label' x' y' p' tdx' tdy' Hp' Hdx' Hdy'.
    destruct (place_inv _ _ _ _ _ _ _ Hp')
      as (dx1 & dy1 & Hdx1 & Hdy1 & Hha' & _ & Hva' & _).
    rewrite Hdx' in Hdx1. rewrite Hdy' in Hdy1. simplify_eq. split.
    + intros Hs. rewrite Hha, Hha'. unfold horizontal.
      rewrite !Qltb_sign, Hs. by destruct (Qsign dx0 =? 1)%Z.
    + intros Hs. rewrite Hva, Hva'. unfold vertical.
      rewrite !Qltb_sign, Hs. by destruct (Qsign dy0 =? 1)%Z.
Qed.

Lemma placement_deterministic_witness :
  (∀ name' label' p',
     place close_pair 0 name' label' 0 0 = Ok p' →
     horizontalalignment p' = horizontalalignment close_pair_first
     ∧ verticalalignment p' = verticalalignment close_pair_first
     ∧ placed_x p' = placed_x close_pair_first
     ∧ placed_y p' = placed_y close_pair_first)
  ∧ (∀ (e' : points) (i' : nat) name' label' (x' y' : Q) p' tdx' tdy',
       place e' i' name' label' x' y' = Ok p' →
       this_dx e' i' x' y' = Ok tdx' →
       this_dy e' i' x' y' = Ok tdy' →
       (Qsign tdx' = Qsign (0 - 0.5) →
        horizontalalignment p' = horizontalalignment close_pair_first)
       ∧ (Qsign tdy' = Qsign (0 - 0.5) →
          verticalalignment p' = verticalalignment close_pair_first)).
Proof.
  apply (placement_deterministic close_pair 0 "A" 0%Z 0 0 close_pair_first
           (0 - 0.5) (0 - 0.5)); reflexivity.
Defined.

(** The keys of an annotation. *)
Lemma annot_keys (vx vy vt vs : value) :
  dom ({[ "x" := vx; "y" := vy; "text" := vt; "showarrow" := vs ]}
        : gmap string value)
  = ({[ "x"; "y"; "text"; "showarrow" ]} : gset string).
Proof. rewrite !dom_insert_L, dom_singleton_L. set_solver. Qed.

(** C9.  The loop returns one record per instrument; the record holds
    exactly the nudged [x], the nudged [y], the display name under [text]
    and [showarrow = False]; neither alignment is stored in it; and when
    the selected vertical displacement is not positive the variable
    [verticalalignment] holds the one-element tuple [('top',)], which is
    not the string ['top']. *)
Theorem annotation_record names labels (e : points) :
  ∃ ps,
    placements names labels e = Ok ps
    ∧ annotations names labels e = Ok (annot <$> ps)
    ∧ length ps = length (zip (zip names labels) e)
    ∧ ∀ (i : nat) (p : placement), ps !! i = Some p →
        ∃ name label x y tdx tdy,
          names !! i = Some name
          ∧ labels !! i = Some label
          ∧ e !! i = Some (x, y)
          ∧ this_dx e i x y = Ok tdx
          ∧ this_dy e i x y = Ok tdy
          ∧ placed_x p = (if Qltb 0 tdx then x + 0.002 else x - 0.002)
          ∧ placed_y p = (if Qltb 0 tdy then y + 0.002 else y - 0.002)
          ∧ annot p = {[ "x" := PyFloat (placed_x p);
                         "y" := PyFloat (placed_y p);
                         "text" := PyStr name;
                         "showarrow" := PyBool false ]}
          ∧ dom (annot p) = ({[ "x"; "y"; "text"; "showarrow" ]} : gset string)
          ∧ annot p !! "horizontalalignment"%string = None
          ∧ annot p !! "verticalalignment"%string = None
          ∧ (tdy <= 0 →
             verticalalignment p = PyTuple [PyStr "top"]
             ∧ verticalalignment p ≠ PyStr "top").
Proof.
  destruct (placements_returns names labels e) as (ps & Hps & Hlen).
  exists ps. split; [done|]. split.
  { unfold annotations. by rewrite Hps. }
  split; [done|]. intros i p Hp.
  destruct (placements_inv _ _ _ _ _ _ Hps Hp)
    as (name & label & x & y & Hn & Hl & He & Hrun).
  destruct (place_inv _ _ _ _ _ _ _ Hrun)
    as (tdx & tdy & Hdx & Hdy & Hha & Hx & Hva & Hy & Hannot).
  exists name, label, x, y, tdx, tdy.
  repeat (split; [done|]).
  split. { rewrite Hx. unfold horizontal. by destruct (Qltb 0 tdx). }
  split. { rewrite Hy. unfold vertical. by destruct (Qltb 0 tdy). }
  split; [done|].
  split. { rewrite Hannot. apply annot_keys. }
  split. { by rewrite Hannot. }
  split. { by rewrite Hannot. }
  intros Htdy. rewrite Hva.
  destruct (vertical_rule tdy y) as [_ Hdown]. by rewrite Hdown.
Qed.

Lemma annotation_record_witness :
  ∃ ps,
    placements ["A"; "B"]%string [0; 1]%Z close_pair = Ok ps
    ∧ length ps = 2%nat
    ∧ ∀ p : placement, ps !! 0%nat = Some p →
        annot p !! "text"%string = Some (PyStr "A")
        ∧ verticalalignment p = PyTuple [PyStr "top"].
Proof.
  destruct (annotation_record ["A"; "B"]%string [0; 1]%Z close_pair)
    as (ps & Hps & _ & Hlen & Hrec).
  exists ps. split; [exact Hps|]. split; [exact Hlen|].
  intros p Hp.
  destruct (Hrec 0%nat p Hp)
    as (name & label & x & y & tdx & tdy & Hn & _ & He & _ & Hdy & _ & _
        & Hannot & _ & _ & _ & Htop).
  injection Hn as <-. injection He as <- <-.
  injection Hdy as <-. split.
  - rewrite Hannot. reflexivity.
  - apply Htop. discriminate.
Defined.

End RecordFacts.

(** ** The graph: masks, [np.where] and boolean selection *)

Section MaskFacts.
Local Open Scope Q_scope.

Lemma imap_imap {A B C} (h : nat → B → C) (g : nat → A → B) (l : list A) :
  imap h (imap g l) = imap (λ j v, h j (g j v)) l.
Proof.
  revert h g. induction l as [|a l IH]; intros h g; simpl; [done|].
  f_equal. apply IH.
Qed.

Lemma zip_with_imap_r {A B C} (F : A → B → C) (G : nat → A → B) (l : list A) :
  zip_with F l (imap G l) = imap (λ i a, F a (G i a)) l.
Proof.
  revert G. induction l as [|a l IH]; intros G; simpl; [done|].
  f_equal. apply IH.
Qed.

(** Filtering on a flag computed from index and value. *)
Lemma filter_flag_imap {A C} (h : nat → A → C) (k : nat → A → bool)
    (f : nat → nat) (row : list A) :
  (filter (λ p : C * bool, p.2 = true)
     (imap (λ j v, (h (f j) v, k (f j) v)) row)).*1
  = (λ t : nat * A, h t.1 t.2)
    <$> filter (λ t : nat * A, k t.1 t.2 = true) (imap (λ j v, (f j, v)) row).
Proof.
  revert f. induction row as [|a row IH]; intros f; simpl; [done|].
  rewrite !filter_cons. simpl.
  specialize (IH (f ∘ S)). simpl in IH.
  destruct (k (f 0%nat) a) eqn:E.
  - rewrite !decide_True by done. simpl. f_equal. apply IH.
  - rewrite !decide_False by (by intros ?). apply IH.
Qed.

Lemma true_indices_row (i : nat) (row : list Q) :
  true_indices (imap (is_edge i) row) = (row_entries i row).*1.
Proof.
  unfold true_indices, row_entries, enumerate. rewrite imap_imap.
  apply (filter_flag_imap (λ j _, j) (is_edge i) id row).
Qed.

Lemma select_row (i : nat) (row : list Q) :
  (filter (λ p : Q * bool, p.2 = true) (zip row (imap (is_edge i) row))).*1
  = (row_entries i row).*2.
Proof.
  unfold row_entries, enumerate. rewrite zip_with_imap_r.
  apply (filter_flag_imap (λ _ v, v) (is_edge i) id row).
Qed.

Lemma non_zero_imap (pc : matrix) :
  non_zero pc = imap (λ i (row : list Q), imap (is_edge i) row) pc.
Proof.
  unfold non_zero, triu1. rewrite fmap_imap. apply imap_ext.
  intros i row _. simpl. rewrite fmap_imap. done.
Qed.

(** [np.where] and the boolean selection walk the same entries. *)
Lemma where_select_from (f : nat → nat) (pc : matrix) :
  concat (imap (λ i brow, pair (f i) <$> true_indices brow)
            (imap (λ i (row : list Q), imap (is_edge (f i)) row) pc))
  = (entries_from f pc).*1
  ∧ concat (zip_with (λ (row : list Q) (brow : list bool),
                        (filter (λ p, p.2 = true) (zip row brow)).*1)
              pc (imap (λ i (row : list Q), imap (is_edge (f i)) row) pc))
    = (entries_from f pc).*2.
Proof.
  unfold entries_from. revert f.
  induction pc as [|row pc IH]; intros f; simpl; [done|].
  destruct (IH (f ∘ S)) as [IH1 IH2]. simpl in IH1, IH2.
  rewrite !fmap_app. split.
  - rewrite true_indices_row. f_equal; [|apply IH1].
    rewrite <- !list_fmap_compose. done.
  - rewrite select_row. f_equal; [|apply IH2].
    rewrite <- !list_fmap_compose. done.
Qed.

Lemma edge_ends_entries (pc : matrix) :
  zip (start_idx pc) (end_idx pc) = (entries pc).*1.
Proof.
  unfold start_idx, end_idx, np_where. simpl. rewrite zip_fst_snd.
  rewrite non_zero_imap. apply (where_select_from id pc).
Qed.

Lemma values_entries (pc : matrix) :
  values pc = (λ t, Qabs t.2) <$> entries pc.
Proof.
  unfold values, np_select. rewrite non_zero_imap.
  etrans; [apply (f_equal (fmap Qabs)), (proj2 (where_select_from id pc))|].
  by rewrite <- list_fmap_compose.
Qed.

Lemma zip_fmap_same {A B C} (f : A → B) (g : A → C) (l : list A) :
  zip (f <$> l) (g <$> l) = (λ a, (f a, g a)) <$> l.
Proof. induction l as [|a l IH]; simpl; [done|]. f_equal. apply IH. Qed.

Lemma edges_entries (pc : matrix) :
  edges pc = (λ t, (t.1, 15 * Qabs t.2)) <$> entries pc.
Proof.
  unfold edges. rewrite edge_ends_entries, values_entries.
  rewrite <- list_fmap_compose.
  apply (zip_fmap_same fst ((λ v, 15 * v) ∘ (λ t : nat * nat * Q, Qabs t.2))).
Qed.

End MaskFacts.

(** ** The graph: what the kept entries are *)

Section EntryFacts.
Local Open Scope Q_scope.

Lemma is_edge_true (i j : nat) (v : Q) :
  is_edge i j v = true ↔ (i < j)%nat ∧ threshold < Qabs v.
Proof.
  unfold is_edge. rewrite Qltb_lt. case_decide as Hij.
  - split; [by intros H|by intros [_ H]].
  - split; [|by intros [H _]]. intros H. by vm_compute in H.
Qed.

Lemma row_entries_elem (i : nat) (row : list Q) (j : nat) (v : Q) :
  (j, v) ∈ row_entries i row → row !! j = Some v ∧ is_edge i j v = true.
Proof.
  unfold row_entries, enumerate. rewrite list_elem_of_filter. simpl.
  intros [He Hin]. split; [|done].
  apply elem_of_lookup_imap_1 in Hin as (j' & v' & E & Hj). by simplify_eq.
Qed.

Lemma entries_from_elem (f : nat → nat) (pc : matrix) (i' j : nat) (v : Q) :
  (i', j, v) ∈ entries_from f pc →
  ∃ (i : nat) row,
    i' = f i ∧ pc !! i = Some row ∧ row !! j = Some v
    ∧ is_edge (f i) j v = true.
Proof.
  unfold entries_from. revert f.
  induction pc as [|row pc IH]; intros f; simpl.
  - by intros H%elem_of_nil.
  - rewrite elem_of_app. intros [H|H].
    + apply list_elem_of_fmap in H as ([j' v'] & E & Hin). simplify_eq.
      apply row_entries_elem in Hin as [Hj He]. exists 0%nat, row. done.
    + destruct (IH (f ∘ S) H) as (i & row' & -> & Hi & Hj & He).
      exists (S i), row'. done.
Qed.

Lemma enumerate_indices {A} (l : list A) :
  (enumerate l).*1 = seq 0 (length l).
Proof.
  unfold enumerate. rewrite fmap_imap.
  rewrite <- (list_fmap_id (seq 0 (length l))).
  apply (imap_seq_0 l id).
Qed.

Lemma row_entries_NoDup (i : nat) (row : list Q) :
  NoDup (row_entries i row).*1.
Proof.
  apply sublist_NoDup with (enumerate row).*1.
  - rewrite enumerate_indices. apply NoDup_seq.
  - apply fmap_sublist. unfold row_entries. apply sublist_filter.
Qed.

Lemma entries_from_NoDup (f : nat → nat) (pc : matrix) :
  Inj (=) (=) f → NoDup (entries_from f pc).*1.
Proof.
  revert f. induction pc as [|row pc IH]; intros f Hf.
  - apply NoDup_nil_2.
  - change (entries_from f (row :: pc))
      with (((λ t : nat * Q, (f 0%nat, t.1, t.2)) <$> row_entries (f 0%nat) row)
            ++ entries_from (f ∘ S) pc).
    rewrite fmap_app. apply NoDup_app. split; [|split].
    + rewrite <- list_fmap_compose.
      change (fst ∘ (λ t : nat * Q, (f 0%nat, t.1, t.2)))
        with (pair (f 0%nat) ∘ (fst : nat * Q → nat)).
      rewrite list_fmap_compose. apply NoDup_fmap_2; [|apply row_entries_NoDup].
      by intros a b [=].
    + intros [i' j] Hin Hin'.
      apply list_elem_of_fmap in Hin as ([[a b] c] & E & Hin).
      apply list_elem_of_fmap in Hin as ([b' c'] & E' & _).
      apply list_elem_of_fmap in Hin' as ([[a2 b2] c2] & E2 & Hin').
      apply entries_from_elem in Hin' as (i & row' & Ha & _).
      simpl in *. simplify_eq.
    + apply IH. apply _.
Qed.

(** The edges are the kept entries: each lies strictly above the diagonal
    and has an absolute value above the threshold. *)
Lemma edges_lookup (pc : matrix) (k start stop : nat) (w : Q) :
  edges pc !! k = Some (start, stop, w) →
  (start < stop)%nat
  ∧ ∃ row v, pc !! start = Some row ∧ row !! stop = Some v
             ∧ threshold < Qabs v ∧ w = 15 * Qabs v.
Proof.
  rewrite edges_entries, list_lookup_fmap. intros H.
  destruct (entries pc !! k) as [[[i j] v]|] eqn:E; [|done].
  simpl in H. simplify_eq.
  apply list_elem_of_lookup_2 in E.
  apply entries_from_elem in E as (i' & row & -> & Hi & Hj & He).
  apply is_edge_true in He as [Hlt Hthr]. split; [done|].
  exists row, v. done.
Qed.

Lemma edge_ends_NoDup (pc : matrix) :
  NoDup (zip (start_idx pc) (end_idx pc)).
Proof. rewrite edge_ends_entries. apply entries_from_NoDup, _. Qed.

Lemma edge_ends_edges (pc : matrix) :
  (edges pc).*1 = zip (start_idx pc) (end_idx pc).
Proof.
  rewrite edges_entries, edge_ends_entries. by rewrite <- list_fmap_compose.
Qed.

End EntryFacts.

(** ** The graph: the rendered edges *)

Section EdgeTraces.
Local Open Scope Q_scope.

Lemma length_edges (pc : matrix) :
  length (edges pc) = length (zip (start_idx pc) (end_idx pc)).
Proof. by rewrite <- edge_ends_edges, length_fmap. Qed.

Lemma edges_split (pc : matrix) (k start stop : nat) (w : Q) :
  edges pc !! k = Some (start, stop, w) ↔
  zip (start_idx pc) (end_idx pc) !! k = Some (start, stop)
  ∧ ∃ v, values pc !! k = Some v ∧ w = 15 * v.
Proof.
  unfold edges. rewrite lookup_zip_with_Some. split.
  - intros (se & w' & E & Hse & Hw). simplify_eq. split; [done|].
    rewrite list_lookup_fmap in Hw.
    destruct (values pc !! k) as [v|]; [|done]. simpl in Hw.
    simplify_eq. by exists v.
  - intros (Hse & v & Hv & ->). exists (start, stop), (15 * v).
    split; [done|]. split; [done|]. rewrite list_lookup_fmap. by rewrite Hv.
Qed.

(** Every trace of [trace1] draws one edge, in order. *)
Lemma trace1_inv (e : points) (pc : matrix) (ts : list Scatter) :
  trace1 e pc = Ok ts →
  length ts = length (edges pc)
  ∧ ∀ (k : nat) (t : Scatter), ts !! k = Some t →
      ∃ (start stop : nat) (w : Q) (a b : Q * Q),
        edges pc !! k = Some (start, stop, w)
        ∧ e !! start = Some a ∧ e !! stop = Some b
        ∧ scatter_x t = [a.1; b.1] ∧ scatter_y t = [a.2; b.2]
        ∧ scatter_line t
          = Some {| line_color := "yellow"; line_width := w |}.
Proof.
  unfold trace1. destruct (segments e pc) as [segs|] eqn:Hsegs; [|done].
  simpl. intros Hts. unfold segments in Hsegs.
  destruct (mapM_Ok_inv _ _ _ Hsegs) as [Hlen Hseg].
  destruct (mapM_Ok_inv _ _ _ Hts) as [Hlen' Htr].
  rewrite length_seq in Hlen'. split.
  { by rewrite Hlen', Hlen, length_edges. }
  intros k t Hk. destruct (Htr k t Hk) as (k' & Hk' & Hrun).
  apply lookup_seq in Hk' as [-> Hlt]. simpl in Hrun.
  unfold trace1_data in Hrun.
  destruct (getitem segs k) as [s|] eqn:Hs; [|done]. simpl in Hrun.
  destruct (getitem (values pc) k) as [v|] eqn:Hv; [|done]. simpl in Hrun.
  apply getitem_Ok in Hs. apply getitem_Ok in Hv.
  destruct (Hseg k s Hs) as ([start stop] & Hse & Hab).
  destruct (getitem e start) as [a|] eqn:Ha; [|done]. simpl in Hab.
  destruct (getitem e stop) as [b|] eqn:Hb; [|done]. simpl in Hab.
  apply getitem_Ok in Ha. apply getitem_Ok in Hb.
  unfold mret, result_ret in *. simplify_eq. simpl.
  exists start, stop, (15 * v), a, b. split; [|done].
  apply edges_split. split; [done|]. by exists v.
Qed.

(** The loop over the edges returns as soon as the embedding has a point
    for every column of the matrix. *)
Lemma trace1_returns (e : points) (pc : matrix) :
  (∀ row : list Q, row ∈ pc → (length row <= length e)%nat) →
  returns (trace1 e pc).
Proof.
  intros Hfit. unfold trace1.
  destruct (mapM_returns
    (λ '(start, stop), a ← getitem e start; b ← getitem e stop; mret (a, b))
    (zip (start_idx pc) (end_idx pc))) as [segs Hsegs].
  { intros k [start stop] Hk.
    assert (∃ w, edges pc !! k = Some (start, stop, w)) as [w Hw].
    { destruct (lookup_lt_is_Some_2 (edges pc) k) as [[[s t] w] Hw].
      - rewrite length_edges. by apply lookup_lt_Some in Hk.
      - pose proof Hw as Hw'. apply edges_split in Hw' as [Hse _].
        rewrite Hk in Hse. simplify_eq. by exists w. }
    apply edges_lookup in Hw as (Hlt & row & v & Hrow & Hv & _).
    pose proof (Hfit row (list_elem_of_lookup_2 _ _ _ Hrow)) as Hrowlen.
    apply lookup_lt_Some in Hv.
    destruct (lookup_lt_is_Some_2 e start) as [a Ha]; [lia|].
    destruct (lookup_lt_is_Some_2 e stop) as [b Hb]; [lia|].
    unfold getitem. rewrite Ha, Hb. by eexists. }
  unfold segments. rewrite Hsegs. simpl.
  destruct (mapM_Ok_inv _ _ _ Hsegs) as [Hlen _].
  apply mapM_returns. intros i k Hk.
  apply lookup_seq in Hk as [-> Hlt]. simpl. unfold trace1_data.
  destruct (lookup_lt_is_Some_2 segs i Hlt) as [s Hs].
  destruct (lookup_lt_is_Some_2 (values pc) i) as [v Hv].
  { rewrite values_entries, length_fmap.
    rewrite Hlen, edge_ends_entries, length_fmap in Hlt. done. }
  unfold getitem. rewrite Hs, Hv. by eexists.
Qed.

End EdgeTraces.

Section EdgeInvariant.
Local Open Scope Q_scope.

Example sample_edges :
  edges (partial_correlations sample_precision sample_d)
  = [(0%nat, 1%nat, 15 * Qabs (2 * 0.5 * 0.5));
     (1%nat, 2%nat, 15 * Qabs (-1 * 0.5 * 0.5))].
Proof. reflexivity. Qed.

Lemma edge_width_pos (v : Q) : threshold < Qabs v → 0 < 15 * Qabs v.
Proof.
  intros H. apply Qmult_lt_0_compat; [done|].
  apply Qlt_trans with threshold; done.
Qed.

(** C10.  The edge traces are drawn from the strict upper triangle of the
    thresholded normalized partial correlations: the loop returns one
    trace per edge; each edge [(start, stop)] has [start < stop], joins
    the embedded points of its two ends, comes from an entry whose
    absolute value is strictly above [0.02], and has the strictly positive
    width [15 * |entry|]; and no unordered pair of instruments is drawn
    twice. *)
Theorem edges_strict_upper_triangle (precision : matrix) (d : list Q)
    (e : points) :
  Forall (λ row : list Q, (length row <= length e)%nat)
         (partial_correlations precision d) →
  ∃ ts : list Scatter,
    trace1 e (partial_correlations precision d) = Ok ts
    ∧ length ts = length (edges (partial_correlations precision d))
    ∧ (∀ (k : nat) (t : Scatter), ts !! k = Some t →
         ∃ (start stop : nat) (w : Q) (a b : Q * Q) (row : list Q) (v : Q),
           edges (partial_correlations precision d) !! k
           = Some (start, stop, w)
           ∧ (start < stop)%nat
           ∧ partial_correlations precision d !! start = Some row
           ∧ row !! stop = Some v
           ∧ 0.02 < Qabs v
           ∧ w = 15 * Qabs v
           ∧ 0 < w
           ∧ e !! start = Some a ∧ e !! stop = Some b
           ∧ scatter_x t = [a.1; b.1] ∧ scatter_y t = [a.2; b.2]
           ∧ scatter_line t
             = Some {| line_color := "yellow"; line_width := w |})
    ∧ (∀ (k k' s t s' t' : nat) (w w' : Q),
         edges (partial_correlations precision d) !! k = Some (s, t, w) →
         edges (partial_correlations precision d) !! k' = Some (s', t', w') →
         (s = s' ∧ t = t') ∨ (s = t' ∧ t = s') →
         k = k').
Proof.
  set (pc := partial_correlations precision d). intros Hfit.
  destruct (trace1_returns e pc) as [ts Hts].
  { by apply Forall_forall. }
  exists ts. split; [done|].
  destruct (trace1_inv e pc ts Hts) as [Hlen Htr]. split; [done|]. split.
  - intros k t Hk.
    destruct (Htr k t Hk)
      as (start & stop & w & a & b & Hedge & Ha & Hb & Hx & Hy & Hline).
    destruct (edges_lookup pc k start stop w Hedge)
      as (Hlt & row & v & Hrow & Hv & Hthr & Hw).
    exists start, stop, w, a, b, row, v.
    repeat (split; [done|]). split; [|done].
    rewrite Hw. by apply edge_width_pos.
  - intros k k' s t s' t' w w' Hk Hk' Hpair.
    destruct (edges_lookup pc k s t w Hk) as [Hlt _].
    destruct (edges_lookup pc k' s' t' w' Hk') as [Hlt' _].
    destruct Hpair as [[-> ->]|[-> ->]]; [|lia].
    apply edges_split in Hk as [Hk _]. apply edges_split in Hk' as [Hk' _].
    by apply (NoDup_lookup _ k k' (s', t') (edge_ends_NoDup pc)).
Qed.

Lemma edges_strict_upper_triangle_witness :
  Forall (λ row : list Q, (length row <= length sample_embedding)%nat)
         (partial_correlations sample_precision sample_d)
  ∧ ∃ ts : list Scatter,
      trace1 sample_embedding (partial_correlations sample_precision sample_d)
      = Ok ts
      ∧ length ts = 2%nat.
Proof.
  assert (Forall (λ row : list Q, (length row <= length sample_embedding)%nat)
            (partial_correlations sample_precision sample_d)) as Hfit
    by repeat constructor.
  split; [exact Hfit|].
  destruct (edges_strict_upper_triangle sample_precision sample_d
              sample_embedding Hfit) as (ts & Hts & Hlen & _).
  exists ts. split; [exact Hts|exact Hlen].
Defined.

End EdgeInvariant.

(** ** The figure *)

Section FigureFacts.
Local Open Scope Q_scope.

Lemma annotations_returns names labels (e : points) :
  returns (annotations names labels e).
Proof.
  unfold annotations.
  destruct (placements_returns names labels e) as (ps & -> & _).
  by eexists.
Qed.

Lemma axis_returns (below above : Q) (a : list Q) :
  a ≠ [] → returns (axis below above a).
Proof. destruct a as [|v a]; [done|]. intros _. by eexists. Qed.

(** The plotting cell returns as soon as the embedding is not empty and has
    a point for every column of the matrix. *)
Lemma fig_returns spectral randn names labels (e : points) (pc : matrix) :
  e ≠ [] →
  Forall (λ row : list Q, (length row <= length e)%nat) pc →
  returns (fig spectral randn names labels e pc).
Proof.
  intros He Hfit. unfold fig.
  destruct (matplotlib_to_plotly_returns spectral 500) as (cs & -> & _);
    [done|]. simpl.
  destruct (trace1_returns e pc) as [ts ->]; [by apply Forall_forall|].
  simpl. destruct (annotations_returns names labels e) as [anns ->]. simpl.
  destruct (axis_returns 0.03 0.03 (row1 e)) as [ya ->].
  { unfold row1. by destruct e. }
  simpl. destruct (axis_returns 0.15 0.10 (row0 e)) as [xa ->].
  { unfold row0. by destruct e. }
  by eexists.
Qed.

(** On an empty embedding the axis ranges have no minimum to take. *)
Lemma fig_empty_raises spectral randn names labels :
  fig spectral randn names labels [] [] = Raise ValueError.
Proof.
  unfold fig.
  destruct (matplotlib_to_plotly_returns spectral 500) as (cs & -> & _);
    [done|]. simpl.
  unfold annotations, placements. by destruct (zip names labels).
Qed.

(** The parts of a figure. *)
Lemma fig_inv spectral randn names labels (e : points) (pc : matrix) f :
  fig spectral randn names labels e pc = Ok f →
  ∃ colorscale ts anns,
    Colorscale.matplotlib_to_plotly spectral 500 = Ok colorscale
    ∧ trace1 e pc = Ok ts
    ∧ annotations names labels e = Ok anns
    ∧ figure_data f = ts ++ [trace e labels (randn 500%nat) colorscale]
    ∧ layout_annotations (figure_layout f) = anns.
Proof.
  unfold fig.
  destruct (Colorscale.matplotlib_to_plotly spectral 500) as [cs|];
    [|done]. simpl.
  destruct (trace1 e pc) as [ts|]; [|done]. simpl.
  destruct (annotations names labels e) as [anns|]; [|done]. simpl.
  destruct (axis 0.03 0.03 (row1 e)) as [ya|]; [|done]. simpl.
  destruct (axis 0.15 0.10 (row0 e)) as [xa|]; [|done]. simpl.
  intros H. inversion H; subst f. simpl. by exists cs, ts, anns.
Qed.

(** The node trace is the last trace of the figure: its positions are the
    embedding coordinates, its [name] holds the cluster labels and its
    marker colours are the 500 random draws. *)
Lemma fig_node_trace spectral randn names labels (e : points) (pc : matrix) f :
  fig spectral randn names labels e pc = Ok f →
  ∃ t, last (figure_data f) = Some t
       ∧ scatter_x t = row0 e ∧ scatter_y t = row1 e
       ∧ scatter_name t = Some labels
       ∧ node_colors f = Some (randn 500%nat).
Proof.
  intros Hf.
  destruct (fig_inv _ _ _ _ _ _ _ Hf) as (cs & ts & anns & _ & _ & _ & Hd & _).
  exists (trace e labels (randn 500%nat) cs).
  unfold node_colors. rewrite Hd, last_snoc. done.
Qed.

Lemma flat_noise_not_labels :
  Some (flat_noise 500) ≠ Some (inject_Z <$> sample_labels).
Proof.
  intros E. apply (f_equal (fmap length)) in E. discriminate E.
Qed.

(** C2.  The colour part fails on the code: on the three sample
    instruments (clusters [0, 0, 1]) the figure is produced, its node
    positions are the embedding coordinates, but its node colours are the
    500 draws of the random generator, not the cluster labels; the same
    colours come out for any other cluster labels. *)
Theorem node_colors_are_noise :
  ∃ f,
    fig Colorscale.gray flat_noise sample_names sample_labels sample_embedding
        (partial_correlations sample_precision sample_d) = Ok f
    ∧ node_colors f = Some (flat_noise 500)
    ∧ node_colors f ≠ Some (inject_Z <$> sample_labels)
    ∧ ∀ labels' : list Z,
        ∃ f',
          fig Colorscale.gray flat_noise sample_names labels' sample_embedding
              (partial_correlations sample_precision sample_d) = Ok f'
          ∧ node_colors f' = node_colors f.
Proof.
  assert (Forall (λ row : list Q, (length row <= length sample_embedding)%nat)
            (partial_correlations sample_precision sample_d)) as Hfit
    by repeat constructor.
  assert (sample_embedding ≠ []) as Hne by done.
  destruct (fig_returns Colorscale.gray flat_noise sample_names sample_labels
              sample_embedding _ Hne Hfit) as [f Hf].
  exists f. split; [done|].
  destruct (fig_node_trace _ _ _ _ _ _ _ Hf) as (t & _ & _ & _ & _ & Hc).
  split; [done|]. split.
  - rewrite Hc. apply flat_noise_not_labels.
  - intros labels'.
    destruct (fig_returns Colorscale.gray flat_noise sample_names labels'
                sample_embedding _ Hne Hfit) as [f' Hf'].
    exists f'. split; [done|].
    destruct (fig_node_trace _ _ _ _ _ _ _ Hf') as (t' & _ & _ & _ & _ & Hc').
    by rewrite Hc, Hc'.
Qed.

End FigureFacts.

(** ** Standardization *)

Section StandardizeFacts.

Lemma std_axis0_lookup (X : list (list float64)) (j : nat) :
  j < ncols X → std_axis0 X !! j = Some (np_std (column X j)).
Proof.
  intros Hj. unfold std_axis0. rewrite list_lookup_fmap.
  by rewrite lookup_seq_lt.
Qed.


(** *** The pairwise sum follows numpy's three branches *)

Lemma split_point_bounds (n : nat) :
  128 < n → 0 < n / 2 - (n / 2) mod 8 ∧ n / 2 - (n / 2) mod 8 < n.
Proof.
  intros Hn.
  pose proof (Nat.mod_upper_bound (n / 2) 8 ltac:(lia)) as Hm.
  pose proof (Nat.div_mod_eq n 2) as Hd.
  pose proof (Nat.mod_upper_bound n 2 ltac:(lia)) as Hr.
  lia.
Qed.

Lemma pairwise_sum_rec_eq (depth : nat) (a : list float64) :
  pairwise_sum_rec depth a
  = if decide (length a < 8) then sum_rest (S754_zero false) a
    else if decide (length a ≤ 128) then block_sum a
    else match depth with
         | 0 => block_sum a
         | S depth' =>
             fadd (pairwise_sum_rec depth'
                     (take (length a / 2 - (length a / 2) mod 8) a))
                  (pairwise_sum_rec depth'
                     (drop (length a / 2 - (length a / 2) mod 8) a))
         end.
Proof. by destruct depth. Qed.

(** The recursion depth does not matter once it covers the length. *)
Lemma pairwise_sum_rec_depth (d1 d2 : nat) (a : list float64) :
  length a ≤ d1 → length a ≤ d2 →
  pairwise_sum_rec d1 a = pairwise_sum_rec d2 a.
Proof.
  revert d2 a. induction d1 as [|d1 IH]; intros d2 a H1 H2;
    rewrite (pairwise_sum_rec_eq _ a), (pairwise_sum_rec_eq d2 a).
  - repeat case_decide; (lia || done).
  - case_decide as H8; [done|]. case_decide as H128; [done|].
    destruct d2 as [|d2]; [lia|].
    destruct (split_point_bounds (length a) ltac:(lia)) as [Hlo Hhi].
    f_equal; apply IH; rewrite ?length_take, ?length_drop; lia.
Qed.

Lemma pairwise_sum_short (a : list float64) :
  length a < 8 → pairwise_sum a = fold_left fadd a (S754_zero false).
Proof.
  intros Hn. unfold pairwise_sum. rewrite pairwise_sum_rec_eq.
  by rewrite decide_True.
Qed.

Lemma pairwise_sum_block (a : list float64) :
  8 ≤ length a ≤ 128 → pairwise_sum a = block_sum a.
Proof.
  intros Hn. unfold pairwise_sum. rewrite pairwise_sum_rec_eq.
  rewrite decide_False by lia. by rewrite decide_True by lia.
Qed.

Lemma pairwise_sum_split (a : list float64) :
  128 < length a →
  pairwise_sum a
  = fadd (pairwise_sum (take (length a / 2 - (length a / 2) mod 8) a))
         (pairwise_sum (drop (length a / 2 - (length a / 2) mod 8) a)).
Proof.
  intros Hn. unfold pairwise_sum at 1. rewrite pairwise_sum_rec_eq.
  destruct (split_point_bounds (length a) Hn) as [Hlo Hhi].
  rewrite decide_False by lia. rewrite decide_False by lia.
  destruct (length a) as [|d] eqn:E; [lia|]. rewrite <- E in *.
  unfold pairwise_sum.
  f_equal; apply pairwise_sum_rec_depth;
    rewrite ?length_take, ?length_drop; lia.
Qed.

(** *** What every sum keeps *)

Section Closed.
Variable P : float64 → Prop.
Hypothesis P_zero : P (S754_zero false).
Hypothesis P_fadd : ∀ u v : float64, P u → P v → P (fadd u v).








End Closed.

(** *** A column of zeros *)






Lemma constant_replicate (n : nat) (v : float64) : constant (replicate n v).
Proof.
  intros u w Hu Hw.
  apply elem_of_replicate in Hu as [-> _].
  by apply elem_of_replicate in Hw as [-> _].
Qed.

(** *** Runs *)

Example constant_series_std :
  std_axis0 constant_series = [S754_zero false].
Proof. vm_compute. reflexivity. Qed.

Example constant_series_standardized :
  standardize constant_series
  = Ok [[S754_infinity false]; [S754_infinity false]].
Proof. vm_compute. reflexivity. Qed.



(** Ten days at 0.1: the pairwise sum gives the mean 0.1 exactly, the
    standard deviation is zero and every value becomes an infinity. *)
Example tenth_ten_days :
  np_std (column (tenth_series 10) 0) = S754_zero false
  ∧ standardize (tenth_series 10) = Ok (replicate 10 [S754_infinity false]).
Proof. split; vm_compute; reflexivity. Qed.

(** Three days at 0.1: the column is constant, but the computed mean is
    not 0.1, the computed standard deviation is [2^-56] and the values
    stay finite. *)
Example tenth_three_days :
  constant (column (tenth_series 3) 0)
  ∧ np_std (column (tenth_series 3) 0)
    = S754_finite false 4503599627370496 (-108)
  ∧ standardize (tenth_series 3)
    = Ok (replicate 3 [S754_finite false 7205759403792794 0]).
Proof.
  split; [apply (constant_replicate 3)|].
  split; vm_compute; reflexivity.
Qed.




End StandardizeFacts.

(* ===================================================================== *)
(** * Part III: further properties of the notebook's code                 *)
(* ===================================================================== *)

(** ** Label placement *)

Section LabelExtras.
Local Open Scope Q_scope.

(** X1.  The label loop never raises: the sentinel writes and the reads at
    the selected indices always stay in range, whatever the names, labels
    and embedding, and the loop leaves one record for every instrument
    that has a name, a label and a point. *)
Theorem annotations_never_raise names labels (e : points) :
  ∃ anns,
    annotations names labels e = Ok anns
    ∧ length anns
      = ((length names `min` length labels) `min` length e)%nat.
Proof.
  destruct (placements_returns names labels e) as (ps & Hps & Hlen).
  exists (annot <$> ps). split.
  - unfold annotations. by rewrite Hps.
  - rewrite length_fmap, Hlen. by rewrite !length_zip_with.
Qed.

End LabelExtras.

Section SelectionOnFloats.
Import Labels64.

(** The scan keeps a value that nothing seen so far is below. *)
Lemma argmin_from_least (l pre : list float64) (min_ind : nat)
    (mp : float64) (i : nat) :
  length pre = i → pre !! min_ind = Some mp → is_nan mp = false →
  (∀ (k : nat) (v : float64), pre !! k = Some v → flt v mp = false) →
  ∃ m, (pre ++ l) !! argmin_from min_ind mp i l = Some m
       ∧ ∀ (k : nat) (v : float64), (pre ++ l) !! k = Some v →
           flt v m = false.
Proof.
  revert pre min_ind mp i.
  induction l as [|v l IH]; intros pre min_ind mp i Hlen Hmp Hnan Hleast.
  - simpl. rewrite app_nil_r. by exists mp.
  - simpl. rewrite (cons_middle v pre l), app_assoc.
    destruct (fle mp v) eqn:Hle.
    + apply IH.
      * rewrite length_app. simpl. lia.
      * by apply lookup_app_l_Some.
      * done.
      * intros k w Hw. apply lookup_app_Some in Hw as [Hw|[_ Hw]].
        -- by apply (Hleast k).
        -- apply list_lookup_singleton_Some in Hw as [_ <-].
           by apply fle_not_flt.
    + destruct (is_nan v) eqn:Hv.
      * exists v. split.
        -- apply lookup_app_l_Some. rewrite <- Hlen.
           by rewrite list_lookup_middle.
        -- intros k w _. by apply flt_nan_r.
      * apply IH.
        -- rewrite length_app. simpl. lia.
        -- rewrite <- Hlen. by rewrite list_lookup_middle.
        -- done.
        -- intros k w Hw. apply lookup_app_Some in Hw as [Hw|[_ Hw]].
           ++ destruct (flt w v) eqn:Hwv; [|done].
              rewrite <- (Hleast k w Hw). symmetry.
              apply flt_trans with v; [done|]. by apply not_fle_flt.
           ++ apply list_lookup_singleton_Some in Hw as [_ <-].
              apply flt_irrefl.
Qed.

(** [np.argmin] returns the index of a value that no value of the array
    is below. *)
Lemma np_argmin_least (l : list float64) :
  l ≠ [] →
  ∃ (r : nat) (m : float64),
    np_argmin l = Ok r ∧ l !! r = Some m
    ∧ ∀ (k : nat) (v : float64), l !! k = Some v → flt v m = false.
Proof.
  destruct l as [|v l]; [done|]. intros _. simpl.
  destruct (is_nan v) eqn:Hv.
  - exists 0, v. split; [done|]. split; [done|].
    intros k w _. by apply flt_nan_r.
  - destruct (argmin_from_least l [v] 0 v 1) as (m & Hm & Hleast);
      [done|done|done| |].
    + intros [|k] w Hw; [|done]. injection Hw as <-. apply flt_irrefl.
    + by exists (argmin_from 0 v 1 l), m.
Qed.

Lemma fabs_sentinel : fabs sentinel = sentinel.
Proof. reflexivity. Qed.

(** The selection among the absolute displacements [|c0 - c|], the one of
    the target replaced by the sentinel. *)
Lemma sentinel_argmin_least (cs : list float64) (i : nat) (c0 : float64) :
  i < length cs →
  ∃ (r : nat) (m : float64),
    np_argmin (fabs <$> <[i:=sentinel]> ((λ c, fsub c0 c) <$> cs)) = Ok r
    ∧ (if decide (r = i) then m = sentinel
       else ∃ c, cs !! r = Some c ∧ m = fabs (fsub c0 c))
    ∧ flt sentinel m = false
    ∧ ∀ (k : nat) (c : float64), k ≠ i → cs !! k = Some c →
        flt (fabs (fsub c0 c)) m = false.
Proof.
  intros Hi.
  set (l := fabs <$> <[i:=sentinel]> ((λ c, fsub c0 c) <$> cs)).
  assert (l !! i = Some sentinel) as Hself.
  { unfold l. rewrite list_lookup_fmap, list_lookup_insert_eq by
      (by rewrite length_fmap). done. }
  assert (∀ k : nat, k ≠ i → l !! k = (λ c, fabs (fsub c0 c)) <$> cs !! k)
    as Hother.
  { intros k Hk. unfold l.
    rewrite list_lookup_fmap, list_lookup_insert_ne by done.
    rewrite list_lookup_fmap. by destruct (cs !! k). }
  destruct (np_argmin_least l) as (r & m & Hr & Hm & Hleast).
  { intros E. by rewrite E in Hself. }
  exists r, m. split; [done|]. split; [|split].
  - case_decide as Hri.
    + subst r. rewrite Hself in Hm. by injection Hm.
    + rewrite (Hother r Hri) in Hm.
      destruct (cs !! r) as [c|]; [|done]. injection Hm as <-. by exists c.
  - by apply (Hleast i).
  - intros k c Hk Hc. apply (Hleast k). by rewrite (Hother k Hk), Hc.
Qed.

Lemma dx_Ok64 (e : points) (index : nat) (x : float64) :
  index < length e →
  dx e index x = Ok (<[index:=sentinel]> ((λ c, fsub x c) <$> row0 e)).
Proof.
  intros Hi. unfold dx. apply setitem_Ok.
  unfold row0. by rewrite !length_fmap.
Qed.

Lemma dy_Ok64 (e : points) (index : nat) (y : float64) :
  index < length e →
  dy e index y = Ok (<[index:=sentinel]> ((λ c, fsub y c) <$> row1 e)).
Proof.
  intros Hi. unfold dy. apply setitem_Ok.
  unfold row1. by rewrite !length_fmap.
Qed.

(** What the two selections are, in terms of the points. *)
Lemma dx_choice_least (e : points) (index : nat) (y : float64) :
  index < length e →
  ∃ (r : nat) (m : float64),
    dx_choice e index y = Ok r
    ∧ (if decide (r = index) then m = sentinel
       else ∃ pr, e !! r = Some pr ∧ m = fabs (fsub y pr.2))
    ∧ flt sentinel m = false
    ∧ ∀ (k : nat) (pk : float64 * float64), k ≠ index → e !! k = Some pk →
        flt (fabs (fsub y pk.2)) m = false.
Proof.
  intros Hi.
  destruct (sentinel_argmin_least (row1 e) index y)
    as (r & m & Hr & Hm & Hs & Hleast).
  { unfold row1. by rewrite length_fmap. }
  exists r, m. split.
  { unfold dx_choice. rewrite dy_Ok64 by done. exact Hr. }
  split; [|split; [done|]].
  - case_decide; [done|]. destruct Hm as (c & Hc & ->).
    unfold row1 in Hc. rewrite list_lookup_fmap in Hc.
    destruct (e !! r) as [pr|]; [|done]. injection Hc as <-. by exists pr.
  - intros k pk Hk Hpk. apply (Hleast k); [done|].
    unfold row1. by rewrite list_lookup_fmap, Hpk.
Qed.

Lemma dy_choice_least (e : points) (index : nat) (x : float64) :
  index < length e →
  ∃ (r : nat) (m : float64),
    dy_choice e index x = Ok r
    ∧ (if decide (r = index) then m = sentinel
       else ∃ pr, e !! r = Some pr ∧ m = fabs (fsub x pr.1))
    ∧ flt sentinel m = false
    ∧ ∀ (k : nat) (pk : float64 * float64), k ≠ index → e !! k = Some pk →
        flt (fabs (fsub x pk.1)) m = false.
Proof.
  intros Hi.
  destruct (sentinel_argmin_least (row0 e) index x)
    as (r & m & Hr & Hm & Hs & Hleast).
  { unfold row0. by rewrite length_fmap. }
  exists r, m. split.
  { unfold dy_choice. rewrite dx_Ok64 by done. exact Hr. }
  split; [|split; [done|]].
  - case_decide; [done|]. destruct Hm as (c & Hc & ->).
    unfold row0 in Hc. rewrite list_lookup_fmap in Hc.
    destruct (e !! r) as [pr|]; [|done]. injection Hc as <-. by exists pr.
  - intros k pk Hk Hpk. apply (Hleast k); [done|].
    unfold row0. by rewrite list_lookup_fmap, Hpk.
Qed.

(** The displacement read at a selected index. *)
Lemma this_dx_read (e : points) (index r : nat) (x y : float64) :
  index < length e → dx_choice e index y = Ok r →
  this_dx e index x y
  = getitem (<[index:=sentinel]> ((λ c, fsub x c) <$> row0 e)) r.
Proof.
  intros Hi Hr. unfold this_dx. rewrite dx_Ok64 by done. simpl.
  by rewrite Hr.
Qed.

Lemma this_dy_read (e : points) (index r : nat) (x y : float64) :
  index < length e → dy_choice e index x = Ok r →
  this_dy e index x y
  = getitem (<[index:=sentinel]> ((λ c, fsub y c) <$> row1 e)) r.
Proof.
  intros Hi Hr. unfold this_dy. rewrite dy_Ok64 by done. simpl.
  by rewrite Hr.
Qed.

(** X2.  On binary64, the sentinel works when a neighbour is close: if for
    some other point the computed absolute vertical displacement is below
    [1.0], the point selected for [this_dx] is not the target, and
    likewise along the horizontal axis for [this_dy]. *)
Theorem sentinel_excludes_self_when_near (e : points) (index : nat)
    (x y : float64) :
  index < length e →
  (∀ (j : nat) (pj : float64 * float64),
     e !! j = Some pj → j ≠ index →
     flt (fabs (fsub y pj.2)) sentinel = true →
     ∃ r : nat, dx_choice e index y = Ok r ∧ r ≠ index)
  ∧ (∀ (j : nat) (pj : float64 * float64),
       e !! j = Some pj → j ≠ index →
       flt (fabs (fsub x pj.1)) sentinel = true →
       ∃ r : nat, dy_choice e index x = Ok r ∧ r ≠ index).
Proof.
  intros Hi. split; intros j pj Hj Hne Hnear.
  - destruct (dx_choice_least e index y Hi) as (r & m & Hr & Hm & _ & Hl).
    exists r. split; [done|]. intros ->.
    rewrite decide_True in Hm by done. subst m.
    by rewrite (Hl j pj Hne Hj) in Hnear.
  - destruct (dy_choice_least e index x Hi) as (r & m & Hr & Hm & _ & Hl).
    exists r. split; [done|]. intros ->.
    rewrite decide_True in Hm by done. subst m.
    by rewrite (Hl j pj Hne Hj) in Hnear.
Qed.

Lemma sentinel_excludes_self_when_near_witness :
  0 < length near_pair
  ∧ (∃ r : nat, dx_choice near_pair 0 (S754_zero false) = Ok r ∧ r ≠ 0)
  ∧ (∃ r : nat, dy_choice near_pair 0 (S754_zero false) = Ok r ∧ r ≠ 0).
Proof.
  assert (0 < length near_pair) as Hi by (simpl; lia).
  split; [exact Hi|].
  destruct (sentinel_excludes_self_when_near near_pair 0
              (S754_zero false) (S754_zero false) Hi) as [Hdx Hdy].
  split.
  - apply (Hdx 1 (quarter, quarter)); [reflexivity|discriminate|reflexivity].
  - apply (Hdy 1 (quarter, quarter)); [reflexivity|discriminate|reflexivity].
Defined.

(** X3.  On binary64, when the point selected for [this_dx] is not the
    target, [this_dx] is the computed horizontal displacement to that
    point, and no other point, nor the sentinel [1.0], has a smaller
    computed absolute vertical displacement; the same holds for
    [this_dy] with the axes exchanged. *)
Theorem selected_displacement_is_nearest (e : points) (index : nat)
    (x y : float64) :
  index < length e →
  (∀ r : nat, dx_choice e index y = Ok r → r ≠ index →
     ∃ pr : float64 * float64,
       e !! r = Some pr
       ∧ this_dx e index x y = Ok (fsub x pr.1)
       ∧ flt sentinel (fabs (fsub y pr.2)) = false
       ∧ ∀ (k : nat) (pk : float64 * float64), k ≠ index → e !! k = Some pk →
           flt (fabs (fsub y pk.2)) (fabs (fsub y pr.2)) = false)
  ∧ (∀ r : nat, dy_choice e index x = Ok r → r ≠ index →
       ∃ pr : float64 * float64,
         e !! r = Some pr
         ∧ this_dy e index x y = Ok (fsub y pr.2)
         ∧ flt sentinel (fabs (fsub x pr.1)) = false
         ∧ ∀ (k : nat) (pk : float64 * float64), k ≠ index →
             e !! k = Some pk →
             flt (fabs (fsub x pk.1)) (fabs (fsub x pr.1)) = false).
Proof.
  intros Hi. split; intros r Hr Hne.
  - destruct (dx_choice_least e index y Hi) as (r' & m & Hr' & Hm & Hs & Hl).
    rewrite Hr in Hr'. injection Hr' as <-.
    rewrite decide_False in Hm by done. destruct Hm as (pr & Hpr & ->).
    exists pr. split; [done|]. split; [|done].
    rewrite (this_dx_read e index r x y Hi Hr). apply getitem_Ok.
    rewrite list_lookup_insert_ne by done.
    unfold row0. rewrite !list_lookup_fmap. by rewrite Hpr.
  - destruct (dy_choice_least e index x Hi) as (r' & m & Hr' & Hm & Hs & Hl).
    rewrite Hr in Hr'. injection Hr' as <-.
    rewrite decide_False in Hm by done. destruct Hm as (pr & Hpr & ->).
    exists pr. split; [done|]. split; [|done].
    rewrite (this_dy_read e index r x y Hi Hr). apply getitem_Ok.
    rewrite list_lookup_insert_ne by done.
    unfold row1. rewrite !list_lookup_fmap. by rewrite Hpr.
Qed.

Lemma selected_displacement_is_nearest_witness :
  0 < length near_pair
  ∧ ∃ pr : float64 * float64,
      near_pair !! 1 = Some pr
      ∧ this_dx near_pair 0 (S754_zero false) (S754_zero false)
        = Ok (fsub (S754_zero false) pr.1).
Proof.
  assert (0 < length near_pair) as Hi by (simpl; lia).
  split; [exact Hi|].
  destruct (selected_displacement_is_nearest near_pair 0
              (S754_zero false) (S754_zero false) Hi) as [Hdx _].
  destruct (Hdx 1) as (pr & Hpr & Hthis & _);
    [reflexivity|discriminate|].
  exists pr. split; [exact Hpr|exact Hthis].
Defined.

(** X5.  On binary64, a target for which every other point has a computed
    absolute vertical displacement above [1.0] selects itself: [this_dx]
    is the sentinel [1.0] and the horizontal branch is ['left'] with
    [x + .002]; likewise [this_dy] is [1.0] and the vertical branch is
    ['bottom'] with [y + .002] when every other computed absolute
    horizontal displacement is above [1.0]. *)
Theorem isolated_target_selects_itself (e : points) (index : nat)
    (x y : float64) :
  index < length e →
  ((∀ (k : nat) (pk : float64 * float64), k ≠ index → e !! k = Some pk →
      flt sentinel (fabs (fsub y pk.2)) = true) →
   dx_choice e index y = Ok index
   ∧ this_dx e index x y = Ok sentinel
   ∧ horizontal sentinel x = (PyStr "left", fadd x nudge))
  ∧ ((∀ (k : nat) (pk : float64 * float64), k ≠ index → e !! k = Some pk →
        flt sentinel (fabs (fsub x pk.1)) = true) →
     dy_choice e index x = Ok index
     ∧ this_dy e index x y = Ok sentinel
     ∧ vertical sentinel y = (PyStr "bottom", fadd y nudge)).
Proof.
  intros Hi. split; intros Hfar.
  - assert (dx_choice e index y = Ok index) as Hc.
    { destruct (dx_choice_least e index y Hi) as (r & m & Hr & Hm & Hs & _).
      rewrite Hr. f_equal. destruct (decide (r = index)) as [->|Hne]; [done|].
      destruct Hm as (pr & Hpr & ->).
      by rewrite (Hfar r pr Hne Hpr) in Hs. }
    split; [done|]. split; [|done].
    rewrite (this_dx_read e index index x y Hi Hc). apply getitem_Ok.
    apply list_lookup_insert_eq. unfold row0. by rewrite !length_fmap.
  - assert (dy_choice e index x = Ok index) as Hc.
    { destruct (dy_choice_least e index x Hi) as (r & m & Hr & Hm & Hs & _).
      rewrite Hr. f_equal. destruct (decide (r = index)) as [->|Hne]; [done|].
      destruct Hm as (pr & Hpr & ->).
      by rewrite (Hfar r pr Hne Hpr) in Hs. }
    split; [done|]. split; [|done].
    rewrite (this_dy_read e index index x y Hi Hc). apply getitem_Ok.
    apply list_lookup_insert_eq. unfold row1. by rewrite !length_fmap.
Qed.

Lemma isolated_target_selects_itself_witness :
  1 < length far_pair
  ∧ dx_choice far_pair 1 (of_Z 5) = Ok 1
  ∧ this_dx far_pair 1 (of_Z 5) (of_Z 5) = Ok sentinel.
Proof.
  assert (1 < length far_pair) as Hi by (simpl; lia).
  split; [exact Hi|].
  destruct (isolated_target_selects_itself far_pair 1 (of_Z 5) (of_Z 5) Hi)
    as [Hdx _].
  destruct Hdx as (Hc & Ht & _).
  - intros [|[|k]] pk Hk Hpk; [|done|done].
    injection Hpk as <-. reflexivity.
  - split; [exact Hc|exact Ht].
Defined.

End SelectionOnFloats.

(** ** The graph *)

Section GraphExtras.
Local Open Scope Q_scope.







End GraphExtras.

(** ** The edge traces and the figure *)

Section FigureExtras.
Local Open Scope Q_scope.

(** A [mapM] raises as soon as its body raises on some element; the
    exception is [E] when the body can raise nothing else. *)
Lemma mapM_raises {A B} (f : A → result B) (l : list A) (E : exn)
    (i : nat) (a : A) :
  (∀ a' e', f a' = Raise e' → e' = E) →
  l !! i = Some a → raises (f a) →
  mapM f l = Raise E.
Proof.
  intros Honly. revert i. induction l as [|a0 l IH]; intros i Hi Hr; [done|].
  simpl. destruct (f a0) as [b|e0] eqn:Hf0; simpl.
  - destruct i as [|i]; simpl in Hi.
    + inversion Hi; subst a0. destruct Hr as [e' He']. congruence.
    + by rewrite (IH i Hi Hr).
  - by rewrite (Honly a0 e0 Hf0).
Qed.

(** X9.  The edge loop fails on a short embedding: when some edge ends at
    an instrument for which the embedding has no point, building the
    segments raises [IndexError] and no trace is produced. *)
Theorem trace1_index_error (e : points) (pc : matrix) (k start stop : nat)
    (w : Q) :
  edges pc !! k = Some (start, stop, w) →
  (length e <= stop)%nat →
  trace1 e pc = Raise IndexError.
Proof.
  intros Hk Hshort. unfold trace1.
  assert (segments e pc = Raise IndexError) as ->; [|done].
  apply edges_split in Hk as [Hse _]. unfold segments.
  apply (mapM_raises _ _ IndexError k (start, stop)); [|done|].
  - intros [s t] e'. unfold getitem.
    destruct (e !! s); simpl; [|by intros [= <-]].
    destruct (e !! t); simpl; [done|by intros [= <-]].
  - unfold getitem. rewrite (lookup_ge_None_2 e stop) by done.
    destruct (e !! start); by eexists.
Qed.

Lemma trace1_index_error_witness :
  trace1 [(0, 0); (1, 1)]
         (partial_correlations sample_precision sample_d)
  = Raise IndexError.
Proof.
  apply (trace1_index_error [(0, 0); (1, 1)]
           (partial_correlations sample_precision sample_d)
           1 1 2 (15 * Qabs (-1 * 0.5 * 0.5))).
  - reflexivity.
  - simpl. lia.
Defined.

(** X10.  A figure holds one ["lines"] trace with two points per edge,
    then the node trace last: ["markers"] at the embedding coordinates,
    named by the cluster labels, with a marker of size 10 whose colour
    scale has 500 stops; the layout carries the annotations, one per
    instrument. *)
Theorem figure_structure spectral randn names labels (e : points)
    (pc : matrix) :
  e ≠ [] →
  Forall (λ row : list Q, (length row <= length e)%nat) pc →
  ∃ f ts node m,
    fig spectral randn names labels e pc = Ok f
    ∧ figure_data f = ts ++ [node]
    ∧ length ts = length (edges pc)
    ∧ (∀ (k : nat) (t : Scatter), ts !! k = Some t →
         scatter_mode t = "lines"%string
         ∧ length (scatter_x t) = 2%nat ∧ length (scatter_y t) = 2%nat
         ∧ scatter_marker t = None)
    ∧ scatter_mode node = "markers"%string
    ∧ scatter_x node = row0 e ∧ scatter_y node = row1 e
    ∧ scatter_name node = Some labels
    ∧ scatter_line node = None
    ∧ scatter_marker node = Some m
    ∧ marker_size m = 10%Z
    ∧ length (marker_colorscale m) = 500%nat
    ∧ length (layout_annotations (figure_layout f))
      = ((length names `min` length labels) `min` length e)%nat.
Proof.
  intros Hne Hfit.
  destruct (fig_returns spectral randn names labels e pc Hne Hfit) as [f Hf].
  destruct (fig_inv _ _ _ _ _ _ _ Hf)
    as (cs & ts & anns & Hcs & Hts & Hanns & Hdata & Hlay).
  assert (length cs = 500%nat) as Hstops.
  { destruct (matplotlib_to_plotly_returns spectral 500)
      as (cs' & Hcs' & Hlen'); [done|].
    rewrite Hcs' in Hcs. by simplify_eq. }
  exists f, ts, (trace e labels (randn 500%nat) cs),
    {| marker_size := 10; marker_color := randn 500%nat;
       marker_colorscale := cs |}.
  split; [done|]. split; [done|].
  destruct (trace1_inv e pc ts Hts) as [Hlen Htr]. split; [done|]. split.
  { intros k t Hk.
    unfold trace1 in Hts.
    destruct (segments e pc) as [segs|]; [|done]. simpl in Hts.
    destruct (mapM_Ok_inv _ _ _ Hts) as [_ Hrun].
    destruct (Hrun k t Hk) as (k' & _ & Hbody). unfold trace1_data in Hbody.
    destruct (getitem segs k') as [s|]; [|done]. simpl in Hbody.
    destruct (getitem (values pc) k') as [v|]; [|done]. simpl in Hbody.
    inversion Hbody; subst t. done. }
  repeat (split; [done|]).
  rewrite Hlay. unfold annotations in Hanns.
  destruct (placements_returns names labels e) as (ps & Hps & Hplen).
  rewrite Hps in Hanns. inversion Hanns; subst anns.
  rewrite length_fmap, Hplen. by rewrite !length_zip_with.
Qed.

Lemma figure_structure_witness :
  sample_embedding ≠ []
  ∧ ∃ f ts node,
      fig Colorscale.gray flat_noise sample_names sample_labels
          sample_embedding (partial_correlations sample_precision sample_d)
      = Ok f
      ∧ figure_data f = ts ++ [node]
      ∧ length ts = 2%nat.
Proof.
  assert (sample_embedding ≠ []) as Hne by discriminate.
  split; [exact Hne|].
  destruct (figure_structure Colorscale.gray flat_noise sample_names
              sample_labels sample_embedding
              (partial_correlations sample_precision sample_d) Hne)
    as (f & ts & node & m & Hf & Hdata & Hlen & _).
  - repeat constructor.
  - exists f, ts, node. split; [exact Hf|]. split; [exact Hdata|exact Hlen].
Defined.

(** X11.  Without any embedded point no figure is produced, whatever the
    other inputs: the edge loop raises [IndexError] if the matrix has an
    edge, and otherwise the axis ranges raise [ValueError] for want of a
    minimum. *)
Theorem fig_needs_a_point spectral randn names labels (pc : matrix) :
  fig spectral randn names labels [] pc
  = if decide (edges pc = []) then Raise ValueError else Raise IndexError.
Proof.
  unfold fig.
  destruct (matplotlib_to_plotly_returns spectral 500) as (cs & -> & _);
    [done|]. simpl.
  case_decide as Hedges.
  - assert (trace1 [] pc = Ok []) as ->.
    { unfold trace1, segments.
      assert (zip (start_idx pc) (end_idx pc) = []) as ->; [|done].
      rewrite <- edge_ends_edges, Hedges. done. }
    simpl. unfold annotations, placements.
    by destruct (zip names labels).
  - destruct (edges pc) as [|[[s t] w] l] eqn:He; [done|].
    rewrite (trace1_index_error [] pc 0 s t w); [done| |simpl; lia].
    by rewrite He.
Qed.

End FigureExtras.

(** ** The axis ranges *)

Section AxisExtras.
Local Open Scope Q_scope.

Lemma fold_Qmin_le (l : list Q) (v : Q) :
  fold_left Qmin l v <= v ∧ ∀ x, x ∈ l → fold_left Qmin l v <= x.
Proof.
  revert v. induction l as [|a l IH]; intros v; simpl.
  - split; [apply Qle_refl|]. by intros x Hx%elem_of_nil.
  - destruct (IH (Qmin v a)) as [Hacc Hel]. split.
    + apply Qle_trans with (Qmin v a); [done|apply Q.le_min_l].
    + intros x Hx. apply elem_of_cons in Hx as [->|Hx]; [|by apply Hel].
      apply Qle_trans with (Qmin v a); [done|apply Q.le_min_r].
Qed.

Lemma fold_Qmax_ge (l : list Q) (v : Q) :
  v <= fold_left Qmax l v ∧ ∀ x, x ∈ l → x <= fold_left Qmax l v.
Proof.
  revert v. induction l as [|a l IH]; intros v; simpl.
  - split; [apply Qle_refl|]. by intros x Hx%elem_of_nil.
  - destruct (IH (Qmax v a)) as [Hacc Hel]. split.
    + apply Qle_trans with (Qmax v a); [apply Q.le_max_l|done].
    + intros x Hx. apply elem_of_cons in Hx as [->|Hx]; [|by apply Hel].
      apply Qle_trans with (Qmax v a); [apply Q.le_max_r|done].
Qed.

(** An axis range covers the array it is computed from, for non-negative
    paddings. *)
Lemma axis_covers (below above : Q) (a : list Q) (ax : Axis) :
  0 <= below → 0 <= above →
  axis below above a = Ok ax →
  ∀ x, x ∈ a → (axis_range ax).1 <= x <= (axis_range ax).2.
Proof.
  intros Hb Ha Hax x Hx. destruct a as [|v a]; [done|].
  unfold axis, np_ptp in Hax. simpl in Hax.
  unfold mret, result_ret in Hax. inversion Hax; subst ax. simpl.
  destruct (fold_Qmin_le a v) as [Hlo0 Hlo].
  destruct (fold_Qmax_ge a v) as [Hhi0 Hhi].
  set (lo := fold_left Qmin a v) in *. set (hi := fold_left Qmax a v) in *.
  assert (lo <= x <= hi) as [Hl Hh].
  { apply elem_of_cons in Hx as [->|Hx]; [done|]. split; auto. }
  assert (0 <= hi - lo) as Hspan by Lqa.lra.
  pose proof (Qmult_le_0_compat _ _ Hb Hspan) as Hpb.
  pose proof (Qmult_le_0_compat _ _ Ha Hspan) as Hpa.
  split; Lqa.lra.
Qed.

Lemma fig_axes spectral randn names labels (e : points) (pc : matrix) f :
  fig spectral randn names labels e pc = Ok f →
  axis 0.03 0.03 (row1 e) = Ok (layout_yaxis (figure_layout f))
  ∧ axis 0.15 0.10 (row0 e) = Ok (layout_xaxis (figure_layout f)).
Proof.
  unfold fig.
  destruct (Colorscale.matplotlib_to_plotly spectral 500) as [cs|];
    [|done]. simpl.
  destruct (trace1 e pc) as [ts|]; [|done]. simpl.
  destruct (annotations names labels e) as [anns|]; [|done]. simpl.
  destruct (axis 0.03 0.03 (row1 e)) as [ya|]; [|done]. simpl.
  destruct (axis 0.15 0.10 (row0 e)) as [xa|]; [|done]. simpl.
  intros H. inversion H; subst f. done.
Qed.

(** X12.  Every node lies inside the axis ranges of the figure: the
    horizontal range runs from the least abscissa minus 15% of the spread
    to the greatest plus 10%, the vertical one pads 3% on both sides, so
    each embedded point is within both. *)
Theorem nodes_within_axis_ranges spectral randn names labels (e : points)
    (pc : matrix) :
  e ≠ [] →
  Forall (λ row : list Q, (length row <= length e)%nat) pc →
  ∃ f,
    fig spectral randn names labels e pc = Ok f
    ∧ ∀ x y : Q, (x, y) ∈ e →
        (axis_range (layout_xaxis (figure_layout f))).1 <= x
        ∧ x <= (axis_range (layout_xaxis (figure_layout f))).2
        ∧ (axis_range (layout_yaxis (figure_layout f))).1 <= y
        ∧ y <= (axis_range (layout_yaxis (figure_layout f))).2.
Proof.
  intros Hne Hfit.
  destruct (fig_returns spectral randn names labels e pc Hne Hfit) as [f Hf].
  exists f. split; [done|]. intros x y Hin.
  destruct (fig_axes _ _ _ _ _ _ _ Hf) as [Hy Hx].
  destruct (axis_covers 0.15 0.10 (row0 e) _ ltac:(done) ltac:(done) Hx x)
    as [Hx1 Hx2].
  { unfold row0. apply list_elem_of_fmap. by exists (x, y). }
  destruct (axis_covers 0.03 0.03 (row1 e) _ ltac:(done) ltac:(done) Hy y)
    as [Hy1 Hy2].
  { unfold row1. apply list_elem_of_fmap. by exists (x, y). }
  done.
Qed.

Lemma nodes_within_axis_ranges_witness :
  sample_embedding ≠ []
  ∧ ∃ f,
      fig Colorscale.gray flat_noise sample_names sample_labels
          sample_embedding (partial_correlations sample_precision sample_d)
      = Ok f
      ∧ (axis_range (layout_xaxis (figure_layout f))).1 <= 1
      ∧ 1 <= (axis_range (layout_xaxis (figure_layout f))).2.
Proof.
  assert (sample_embedding ≠ []) as Hne by discriminate.
  split; [exact Hne|].
  destruct (nodes_within_axis_ranges Colorscale.gray flat_noise sample_names
              sample_labels sample_embedding
              (partial_correlations sample_precision sample_d) Hne)
    as (f & Hf & Hin).
  - repeat constructor.
  - exists f. split; [exact Hf|].
    destruct (Hin 1 0) as (H1 & H2 & _).
    + unfold sample_embedding. apply list_elem_of_lookup_2 with 2%nat.
      reflexivity.
    + split; [exact H1|exact H2].
Defined.

End AxisExtras.

(** ** The printed clusters *)

Section ClusterExtras.

Lemma fmap_fst_concat {A B} (ls : list (list (A * B))) :
  (concat ls).*1 = concat ((λ l : list (A * B), l.*1) <$> ls).
Proof.
  induction ls as [|l ls IH]; [done|]. simpl. by rewrite fmap_app, IH.
Qed.

(** Grouping by key, over distinct keys, keeps exactly the pairs whose
    key is listed. *)
Lemma groups_perm {A} (ks : list Z) (l : list (A * Z)) :
  NoDup ks →
  concat ((λ k, filter (λ p, p.2 = k) l) <$> ks)
  ≡ₚ filter (λ p, p.2 ∈ ks) l.
Proof.
  intros Hks. induction Hks as [|k ks Hk Hks IH].
  - simpl. induction l as [|p l IHl]; [done|].
    rewrite filter_cons_False; [done|]. by intros H%elem_of_nil.
  - simpl. rewrite IH. clear IH. induction l as [|p l IHl]; [done|].
    rewrite !filter_cons.
    destruct (decide (p.2 = k)) as [Hp|Hp],
      (decide (p.2 ∈ ks)) as [Hin|Hin],
      (decide (p.2 ∈ k :: ks)) as [Hin'|Hin']; simpl.
    + by rewrite Hp in Hin.
    + by rewrite Hp in Hin.
    + by rewrite IHl.
    + exfalso. apply Hin'. rewrite Hp. left.
    + rewrite <- Permutation_middle. by rewrite IHl.
    + exfalso. apply Hin'. by right.
    + by apply elem_of_cons in Hin' as [?|?].
    + done.
Qed.

Lemma filter_agree {A} (P Q : A → Prop) `{∀ x, Decision (P x)}
    `{∀ x, Decision (Q x)} (l : list A) :
  (∀ x, x ∈ l → P x ↔ Q x) → filter P l = filter Q l.
Proof.
  induction l as [|a l IH]; intros Hl; [done|].
  rewrite !filter_cons.
  assert (P a ↔ Q a) as Ha by (apply Hl; left).
  rewrite IH by (intros x Hx; apply Hl; by right).
  destruct (decide (P a)), (decide (Q a)); tauto || done.
Qed.

Lemma filter_all {A} (P : A → Prop) `{∀ x, Decision (P x)} (l : list A) :
  (∀ x, x ∈ l → P x) → filter P l = l.
Proof.
  induction l as [|a l IH]; intros Hl; [done|].
  rewrite filter_cons_True by (apply Hl; left).
  f_equal. apply IH. intros x Hx. apply Hl. by right.
Qed.

Lemma fold_Zmax_ge (l : list Z) (v : Z) :
  (v <= fold_left Z.max l v)%Z ∧ ∀ x, x ∈ l → (x <= fold_left Z.max l v)%Z.
Proof.
  revert v. induction l as [|a l IH]; intros v; simpl.
  - split; [lia|]. by intros x Hx%elem_of_nil.
  - destruct (IH (Z.max v a)) as [Hacc Hel]. split; [lia|].
    intros x Hx. apply elem_of_cons in Hx as [->|Hx]; [lia|by apply Hel].
Qed.

Lemma elem_of_range (n k : Z) : k ∈ range n ↔ (0 <= k < n)%Z.
Proof.
  unfold range. rewrite list_elem_of_fmap. split.
  - intros (i & -> & Hi). apply elem_of_seq in Hi. lia.
  - intros Hk. exists (Z.to_nat k). split; [lia|].
    apply elem_of_seq. lia.
Qed.

Lemma NoDup_range (n : Z) : NoDup (range n).
Proof.
  unfold range. apply NoDup_fmap_2; [|apply NoDup_seq].
  intros a b. lia.
Qed.

Lemma mapM_fmap_Ok {A B} (f : A → result B) (g : A → B) (l : list A) :
  (∀ a, a ∈ l → f a = Ok (g a)) → mapM f l = Ok (g <$> l).
Proof.
  induction l as [|a l IH]; intros Hf; [done|]. simpl.
  rewrite (Hf a) by left. simpl. rewrite IH; [done|].
  intros a' Ha'. apply Hf. by right.
Qed.

Lemma members_Ok (names : list string) (labels : list Z) (i : Z) :
  length labels = length names →
  members names labels i
  = Ok (filter (λ p, p.2 = i) (zip names labels)).*1.
Proof. intros H. unfold members. by rewrite decide_True. Qed.

(** X14.  The printed clusters.  An empty label array makes
    [labels.max()] raise [ValueError].  With one label per name, one line
    is printed per label value from 0 to the maximum, the line of [k]
    lists the names selected by [labels == k], and the names listed over
    all lines are, up to order, the names of the instruments whose label
    is not negative, so every instrument of a non-negative labelling is
    listed exactly once.  With labels and names of different lengths and
    a maximum that is not negative, the first selection raises
    [IndexError] and nothing is returned. *)
Theorem printed_clusters_partition (names : list string) (labels : list Z) :
  (labels = [] → print_clusters names labels = Raise ValueError)
  ∧ (labels ≠ [] → length labels = length names →
     ∃ (n : Z) (lines : list string) (groups : list (list string)),
       labels_max labels = Ok n
       ∧ print_clusters names labels = Ok lines
       ∧ length lines = Z.to_nat (n + 1)
       ∧ length groups = Z.to_nat (n + 1)
       ∧ (∀ (k : nat) (ms : list string), groups !! k = Some ms →
            members names labels (Z.of_nat k) = Ok ms
            ∧ lines !! k
              = Some ("Cluster " +:+ pretty (Z.of_nat k + 1)%Z +:+ ": "
                      +:+ join ", " ms))
       ∧ concat groups
         ≡ₚ (filter (λ p, (0 <= p.2)%Z) (zip names labels)).*1
       ∧ (Forall (λ l, (0 <= l)%Z) labels → concat groups ≡ₚ names))
  ∧ (length labels ≠ length names →
     ∀ n : Z, labels_max labels = Ok n → (0 <= n)%Z →
       print_clusters names labels = Raise IndexError).
Proof.
  split; [by intros ->|]. split.
  - intros Hne Hlen.
    destruct labels as [|l0 ls]; [done|].
    set (labels := l0 :: ls) in *. set (n := fold_left Z.max ls l0).
    assert (∀ x, x ∈ labels → (x <= n)%Z) as Hmax.
    { intros x Hx. destruct (fold_Zmax_ge ls l0) as [H0 Hel].
      apply elem_of_cons in Hx as [->|Hx]; [done|by apply Hel]. }
    set (group := λ k : Z,
           (filter (λ p : string * Z, p.2 = k) (zip names labels)).*1).
    set (line := λ k : Z,
           "Cluster " +:+ pretty (k + 1)%Z +:+ ": " +:+ join ", " (group k)).
    assert (concat (group <$> range (n + 1))
            ≡ₚ (filter (λ p, (0 <= p.2)%Z) (zip names labels)).*1) as Hperm.
    { change group
        with ((λ l : list (string * Z), l.*1)
              ∘ (λ k, filter (λ p : string * Z, p.2 = k) (zip names labels))).
      rewrite list_fmap_compose, <- fmap_fst_concat.
      rewrite (groups_perm _ _ (NoDup_range (n + 1))).
      f_equiv. erewrite filter_agree; [done|].
      intros [name l] Hin. simpl. rewrite elem_of_range.
      apply elem_of_zip_r in Hin. simpl in Hin.
      specialize (Hmax l Hin). lia. }
    exists n, (line <$> range (n + 1)), (group <$> range (n + 1)).
    split; [done|]. split.
    { unfold print_clusters. simpl. fold n. apply mapM_fmap_Ok.
      intros k _. unfold cluster_line. by rewrite members_Ok. }
    split; [by rewrite length_fmap, length_range|].
    split; [by rewrite length_fmap, length_range|]. split.
    { intros k ms Hk. rewrite list_lookup_fmap in Hk.
      destruct (range (n + 1) !! k) as [z|] eqn:Hz; [|done].
      pose proof (lookup_lt_Some _ _ _ Hz) as Hlt.
      rewrite length_range in Hlt. rewrite range_lookup in Hz by done.
      injection Hz as <-. simpl in Hk. injection Hk as <-. split.
      - by apply members_Ok.
      - rewrite list_lookup_fmap, range_lookup by done. done. }
    split; [done|]. intros Hpos. rewrite Hperm.
    rewrite filter_all.
    + by rewrite fst_zip by lia.
    + intros [name l] Hin. simpl.
      apply elem_of_zip_r in Hin. simpl in Hin.
      by apply (proj1 (Forall_forall _ _) Hpos).
  - intros Hlen n Hn Hpos. unfold print_clusters. rewrite Hn. simpl.
    apply (mapM_raises _ _ _ 0 0%Z).
    + intros k e. unfold cluster_line, members.
      rewrite decide_False by done. simpl. by intros [= <-].
    + apply range_lookup. lia.
    + exists IndexError. unfold cluster_line, members.
      by rewrite decide_False.
Qed.

Lemma printed_clusters_partition_witness :
  (∃ (lines : list string) (groups : list (list string)),
     print_clusters ["a"; "b"; "c"]%string [1; 0; 1]%Z = Ok lines
     ∧ length lines = 2
     ∧ concat groups ≡ₚ ["a"; "b"; "c"]%string)
  ∧ print_clusters ["a"; "b"]%string [1; 0; 1]%Z = Raise IndexError.
Proof.
  split.
  - destruct (printed_clusters_partition ["a"; "b"; "c"]%string [1; 0; 1]%Z)
      as (_ & Hsome & _).
    destruct Hsome as (n & lines & groups & Hn & Hrun & Hlen & _ & _ & _ & Hall);
      [discriminate|reflexivity|].
    injection Hn as <-.
    exists lines, groups. split; [exact Hrun|]. split; [exact Hlen|].
    apply Hall. repeat constructor; discriminate.
  - destruct (printed_clusters_partition ["a"; "b"]%string [1; 0; 1]%Z)
      as (_ & _ & Hbad).
    apply (Hbad ltac:(discriminate) 1%Z); [reflexivity|lia].
Defined.

End ClusterExtras.

(** ** The instrument table and the standardized variations *)

Section TickerExtras.

(** X15.  Symbols and names stay aligned: whatever the order in which a
    non-empty dictionary yields its items, the unpacking returns as many
    symbols as the dictionary has keys, without repetition, the name at
    each position is the dictionary's value for the symbol at that
    position, and every key is there; an empty dictionary makes the
    unpacking raise. *)
Theorem symbols_names_aligned (symbol_dict : gmap string string)
    (items : list (string * string)) :
  items ≡ₚ map_to_list symbol_dict →
  (symbol_dict = ∅ → unpack_items items = Raise ValueError)
  ∧ (symbol_dict ≠ ∅ →
     ∃ symbols names : list string,
       unpack_items items = Ok (symbols, names)
       ∧ length symbols = size symbol_dict
       ∧ length names = size symbol_dict
       ∧ NoDup symbols
       ∧ (∀ (i : nat) (s : string), symbols !! i = Some s →
            ∃ n, names !! i = Some n ∧ symbol_dict !! s = Some n)
       ∧ (∀ s n : string, symbol_dict !! s = Some n →
            ∃ i : nat, symbols !! i = Some s ∧ names !! i = Some n)).
Proof.
  intros Hitems. split.
  - intros ->. rewrite map_to_list_empty in Hitems.
    by apply Permutation_nil_r in Hitems as ->.
  - intros Hne. exists items.*1, items.*2.
    assert (items ≠ []) as Hitems_ne.
    { intros ->. apply Hne. apply map_to_list_empty_iff.
      by apply Permutation_nil_l in Hitems. }
    split; [by destruct items|].
    assert (length items = size symbol_dict) as Hlen.
    { by rewrite Hitems, length_map_to_list. }
    split; [by rewrite length_fmap|]. split; [by rewrite length_fmap|].
    split; [rewrite Hitems; apply NoDup_fst_map_to_list|]. split.
    + intros i s Hs. rewrite list_lookup_fmap in Hs.
      destruct (items !! i) as [[s' n]|] eqn:Hi; [|done].
      simpl in Hs. inversion Hs; subst s'. exists n. split.
      * rewrite list_lookup_fmap. by rewrite Hi.
      * apply elem_of_map_to_list. rewrite <- Hitems.
        by apply list_elem_of_lookup_2 in Hi.
    + intros s n Hsn. apply elem_of_map_to_list in Hsn.
      rewrite <- Hitems in Hsn.
      apply list_elem_of_lookup_1 in Hsn as [i Hi]. exists i.
      rewrite !list_lookup_fmap. by rewrite Hi.
Qed.

Lemma symbols_names_aligned_witness :
  ∃ symbols names : list string,
    unpack_items [("K", "Kellogg"); ("F", "Ford")]%string
    = Ok (symbols, names)
    ∧ NoDup symbols
    ∧ length names = 2%nat.
Proof.
  destruct (symbols_names_aligned
              (list_to_map [("K", "Kellogg"); ("F", "Ford")]%string)
              [("K", "Kellogg"); ("F", "Ford")]%string)
    as [_ Hsome].
  - symmetry. apply map_to_list_to_map.
    by apply (bool_decide_unpack _).
  - destruct Hsome as (symbols & names & Hrun & _ & Hlen & Hnd & _).
    + intros Hempty.
      apply (f_equal (λ m : gmap string string, m !! "K"%string)) in Hempty.
      discriminate Hempty.
    + exists symbols, names.
      split; [exact Hrun|]. split; [exact Hnd|].
      rewrite Hlen. reflexivity.
Defined.

Lemma column_lookup (m : list (list float64)) (t j : nat) :
  Forall (λ s : list float64, t < length s) m →
  column m t !! j = m !! j ≫= (λ s, s !! t).
Proof.
  intros Hm. revert j. induction Hm as [|s m Hs Hm IH]; intros j; [done|].
  unfold column. simpl.
  destruct (lookup_lt_is_Some_2 s t Hs) as [v Hv]. rewrite Hv. simpl.
  destruct j as [|j]; simpl; [done|]. apply IH.
Qed.

Lemma length_column (m : list (list float64)) (t : nat) :
  Forall (λ s : list float64, t < length s) m →
  length (column m t) = length m.
Proof.
  intros Hm. induction Hm as [|s m Hs Hm IH]; [done|].
  unfold column. simpl.
  destruct (lookup_lt_is_Some_2 s t Hs) as [v ->]. simpl.
  f_equal. apply IH.
Qed.

(** On a rectangular array, the columns of the transpose are the rows. *)
Lemma column_transpose (m : list (list float64)) (T j : nat)
    (s : list float64) :
  0 < T →
  Forall (λ s : list float64, length s = T) m →
  m !! j = Some s →
  ncols (transpose m) = length m ∧ column (transpose m) j = s.
Proof.
  intros HT Hm Hj.
  assert (ncols m = T) as Hcols.
  { destruct m as [|s0 m]; [done|]. simpl. by inversion Hm. }
  assert (length s = T) as Hs.
  { apply (proj1 (Forall_forall _ _) Hm s).
    by apply list_elem_of_lookup_2 in Hj. }
  assert (∀ t, t < T → Forall (λ s : list float64, t < length s) m) as Hwide.
  { intros t Ht. eapply Forall_impl; [exact Hm|]. simpl. intros ? ->. done. }
  assert (Forall (λ r : list float64, j < length r) (transpose m)) as Htall.
  { unfold transpose. apply Forall_fmap, Forall_forall. intros t Ht.
    apply elem_of_seq in Ht. simpl.
    rewrite length_column by (apply Hwide; lia).
    by apply lookup_lt_Some in Hj. }
  split.
  - unfold transpose. rewrite Hcols. destruct T as [|T]; [lia|].
    simpl. apply length_column, Hwide. lia.
  - apply list_eq. intros t. rewrite (column_lookup _ _ _ Htall).
    unfold transpose. rewrite list_lookup_fmap, Hcols.
    destruct (decide (t < T)) as [Ht|Ht].
    + rewrite lookup_seq_lt by done. simpl.
      rewrite (column_lookup _ _ _ (Hwide t Ht)). by rewrite Hj.
    + rewrite lookup_seq_ge by lia. simpl.
      symmetry. apply lookup_ge_None_2. lia.
Qed.

(** X16.  Standardization is per instrument: for price arrays of one
    shape (one row per instrument, the same days for all), the value of
    [X] after [X /= X.std(axis=0)] for day [t] and instrument [j] is that
    instrument's variation on that day, close minus open, divided by the
    standard deviation of the instrument's own series of variations. *)
Theorem standardization_is_per_instrument (close open : list (list float64))
    (T : nat) :
  Forall2 (λ c o : list float64, length c = T ∧ length o = T) close open →
  ∃ X',
    standardize (transpose (variation close open)) = Ok X'
    ∧ ∀ (j t : nat) (cs os : list float64) (c o : float64),
        close !! j = Some cs → open !! j = Some os →
        cs !! t = Some c → os !! t = Some o →
        ∃ row,
          X' !! t = Some row
          ∧ row !! j
            = Some (fdiv (fsub c o) (np_std (zip_with fsub cs os))).
Proof.
  intros Hshape.
  set (var := variation close open).
  assert (Forall (λ s : list float64, length s = T) var) as Hrect.
  { unfold var, variation. clear var.
    induction Hshape as [|c o close open [Hc Ho] _ IH]; [done|].
    simpl. constructor; [|done]. rewrite length_zip_with. lia. }
  eexists. split; [reflexivity|].
  intros j t cs os c o Hcs Hos Hc Ho.
  assert (var !! j = Some (zip_with fsub cs os)) as Hj.
  { unfold var, variation. apply lookup_zip_with_Some. by exists cs, os. }
  assert (zip_with fsub cs os !! t = Some (fsub c o)) as Ht.
  { apply lookup_zip_with_Some. by exists c, o. }
  assert (t < T) as HtT.
  { apply lookup_lt_Some in Ht.
    pose proof (list_elem_of_lookup_2 _ _ _ Hj) as Hin.
    apply (proj1 (Forall_forall _ _) Hrect) in Hin. lia. }
  destruct (column_transpose var T j _ ltac:(lia) Hrect Hj) as [Hcols Hcol].
  assert (ncols var = T) as Hvcols.
  { destruct var as [|s0 m] eqn:E; [done|]. simpl. by inversion Hrect. }
  assert (transpose var !! t = Some (column var t)) as Hrow.
  { unfold transpose. rewrite list_lookup_fmap, Hvcols.
    by rewrite lookup_seq_lt. }
  exists (zip_with fdiv (column var t) (std_axis0 (transpose var))). split.
  - rewrite list_lookup_fmap. by rewrite Hrow.
  - apply lookup_zip_with_Some.
    exists (fsub c o), (np_std (zip_with fsub cs os)).
    split; [done|]. split.
    + rewrite column_lookup.
      * rewrite Hj. done.
      * eapply Forall_impl; [exact Hrect|]. simpl. intros ? ->. done.
    + rewrite std_axis0_lookup.
      * by rewrite Hcol.
      * rewrite Hcols. by apply lookup_lt_Some in Hj.
Qed.

Lemma standardization_is_per_instrument_witness :
  ∃ X',
    standardize (transpose (variation [[of_Z 3; of_Z 5]] [[of_Z 3; of_Z 3]]))
    = Ok X'
    ∧ ∃ row,
        X' !! 1 = Some row
        ∧ row !! 0
          = Some (fdiv (fsub (of_Z 5) (of_Z 3))
                    (np_std (zip_with fsub [of_Z 3; of_Z 5]
                               [of_Z 3; of_Z 3]))).
Proof.
  destruct (standardization_is_per_instrument
              [[of_Z 3; of_Z 5]] [[of_Z 3; of_Z 3]] 2) as (X' & Hrun & Hval).
  - repeat constructor.
  - exists X'. split; [exact Hrun|].
    apply (Hval 0 1 [of_Z 3; of_Z 5] [of_Z 3; of_Z 3] (of_Z 5) (of_Z 3));
      reflexivity.
Defined.

End TickerExtras.

